(** * spidey utilities (utils.c): a shallow embedding and its properties

    The functions of [utils.c] are embedded as Rocq functions:
    [determine_mimetype], [determine_request_path], [http_status_string] and
    the two cursor helpers [skip_nonwhitespace] and [skip_whitespace].

    Conventions.
    - A byte is an [ascii]; a [char] array is a [list ascii] holding every
      byte of the object, terminators included; a [char *] into such an
      array is an offset ([nat]), and [option nat] when the pointer may be
      [NULL].
    - A C string handed over by the caller or the configuration
      ([RootPath], a URI, a path) is the list of its bytes before the
      terminator.
    - Undefined behaviour (a read or write outside the object) is the
      explicit outcome [Fault]; a loop that is cut by its fuel is
      [OutOfFuel].
    - What [spidey.h], [<stdio.h>] and the file system provide ([BUFSIZ],
      [WHITESPACE], [RootPath], [MimeTypesPath], [DefaultMimeType], the
      [HTTPStatus] enumerators, [realpath], [fopen]) is a [Variable] of the
      section that uses it. *)

From Stdlib Require Import Ascii String ZArith Lia.
From stdpp Require Import base tactics option list strings.

Local Open Scope char_scope.
Local Open Scope nat_scope.

(** ** Bytes and outcomes *)

Definition NUL : ascii := "000".
Definition newline : ascii := "010".

(** A string literal as the bytes of a C string (no terminator). *)
Definition bytes (s : string) : list ascii := list_ascii_of_string s.

(** [isspace] of <ctype.h> in the C locale: space, and the five controls
    \t \n \v \f \r (9 .. 13). *)
Definition isspace (c : ascii) : bool :=
  let n := nat_of_ascii c in
  (n =? 32) || ((9 <=? n) && (n <=? 13)).

Inductive outcome (A : Type) : Type :=
  | Done (a : A)
  | Fault
  | OutOfFuel.
Arguments Done {A} a.
Arguments Fault {A}.
Arguments OutOfFuel {A}.

Definition outcome_map {A B} (f : A → B) (o : outcome A) : outcome B :=
  match o with
  | Done a => Done (f a)
  | Fault => Fault
  | OutOfFuel => OutOfFuel
  end.

(** The byte a library routine sees at offset [i]: the terminator once the
    bytes of the list run out. *)
Definition byte_at (buf : list ascii) (i : nat) : ascii := default NUL (buf !! i).

(** The C string that starts at the head of [s]: the bytes before the first
    [NUL]. *)
Fixpoint c_string (s : list ascii) : list ascii :=
  match s with
  | [] => []
  | c :: s' => if (c =? NUL)%char then [] else c :: c_string s'
  end.

Definition cstr_at (buf : list ascii) (p : nat) : list ascii := c_string (drop p buf).

Definition strlen (s : list ascii) : nat := length (c_string s).

(** [BUFSIZ] as the GNU C library defines it. *)
Definition BUFSIZ_glibc : nat := 2 ^ 13.

(** ** Text-scan primitives (utils.c, lines 156-184) *)

Module Scan.

(** [while (isspace( *s) == 0) s++;] over the bytes from the cursor on.
    The empty list is the end of the array: [*s] is then read outside it. *)
Fixpoint skip_nonwhitespace_loop (rest : list ascii) (s : nat) : outcome nat :=
  match rest with
  | [] => Fault
  | c :: rest' =>
      if negb (isspace c) then skip_nonwhitespace_loop rest' (S s) else Done s
  end.

Definition skip_nonwhitespace (mem : list ascii) (s : option nat) : outcome (option nat) :=
  match s with
  | None => Done None
  | Some p => outcome_map Some (skip_nonwhitespace_loop (drop p mem) p)
  end.

(** [while (isspace( *s)) s++;] *)
Fixpoint skip_whitespace_loop (rest : list ascii) (s : nat) : outcome nat :=
  match rest with
  | [] => Fault
  | c :: rest' =>
      if isspace c then skip_whitespace_loop rest' (S s) else Done s
  end.

Definition skip_whitespace (mem : list ascii) (s : option nat) : outcome (option nat) :=
  match s with
  | None => Done None
  | Some p => outcome_map Some (skip_whitespace_loop (drop p mem) p)
  end.

End Scan.

(** ** Status phrases (utils.c, lines 126-148) *)

Module Status.

Definition StatusStrings : list string :=
  [ "200 OK"; "400 Bad Request"; "404 Not Found";
    "500 Internal Server Error"; "418 I'm A Teapot" ]%string.

Section Enumerators.
(** The enumerators of [HTTPStatus], declared in spidey.h. *)
Variables HTTP_STATUS_OK HTTP_STATUS_BAD_REQUEST
          HTTP_STATUS_NOT_FOUND HTTP_STATUS_INTERNAL_SERVER_ERROR : Z.

Definition http_status_string (status : Z) : option string :=
  if (status =? HTTP_STATUS_OK)%Z then StatusStrings !! 0
  else if (status =? HTTP_STATUS_BAD_REQUEST)%Z then StatusStrings !! 1
  else if (status =? HTTP_STATUS_NOT_FOUND)%Z then StatusStrings !! 2
  else if (status =? HTTP_STATUS_INTERNAL_SERVER_ERROR)%Z then StatusStrings !! 3
  else None.
End Enumerators.

End Status.

(** ** Request paths (utils.c, lines 99-116) *)

Module Request.

(** [strncmp] of <string.h>: at most [n] bytes, stopping after a
    terminator; the sign of the result is that of the first difference. *)
Fixpoint strncmp (s1 s2 : list ascii) (n : nat) : Z :=
  match n with
  | 0 => 0%Z
  | S n' =>
      let c1 := byte_at s1 0 in
      let c2 := byte_at s2 0 in
      if negb (c1 =? c2)%char then (Z.of_nat (nat_of_ascii c1) - Z.of_nat (nat_of_ascii c2))%Z
      else if (c1 =? NUL)%char then 0%Z
      else strncmp (tail s1) (tail s2) n'
  end.

Section Resolver.
Variable BUFSIZ : nat.
Variable RootPath : list ascii.
(** [realpath(path, NULL)]: the canonical absolute path the file system
    gives for [path], [None] when the call fails. *)
Variable realpath : list ascii → option (list ascii).

Definition determine_request_path (uri : list ascii) : outcome (option (list ascii)) :=
  (* sprintf(combined_path, "%s%s", RootPath, uri) into char buffer[BUFSIZ]:
     the bytes of both strings and one terminator are written *)
  let combined_path := RootPath ++ uri in
  if BUFSIZ <? length combined_path + 1 then Fault
  else
    match realpath combined_path with
    | None => Done None
    | Some combined_path =>
        if negb (strncmp combined_path RootPath (strlen RootPath) =? 0)%Z
        then Done None
        else Done (Some combined_path)
    end.

(** The candidate and its terminator fit the buffer of [BUFSIZ] bytes. *)
Definition fits (uri : list ascii) : Prop := length (RootPath ++ uri) < BUFSIZ.
End Resolver.

(** Following the spec (glossary, sandbox root: the directory outside of
    which resolved paths must never point): a canonical path lies within
    the directory [root] when it is [root] itself or continues [root]
    behind a separator. *)
Definition within_directory (root p : list ascii) : Prop :=
  p = root ∨ (root ++ ["/"%char]) `prefix_of` p.

(** A file system for the examples: one path canonicalizes, to [target]. *)
Definition only (path target : list ascii) : list ascii → option (list ascii) :=
  λ p, if bool_decide (p = path) then Some target else None.

(** A file system for the examples, as a table from paths to the
    canonical paths [realpath] gives for them. *)
Definition fs_table (t : list (list ascii * list ascii)) : list ascii → option (list ascii) :=
  λ p, snd <$> find (λ e, bool_decide (e.1 = p)) t.

End Request.

(** ** Content types (utils.c, lines 34-81) *)

Module Mime.

(** What the caller may do with the returned pointer: [Borrowed] is the
    global [DefaultMimeType], [Owned] a fresh [strdup] allocation. *)
Inductive mimetype : Type :=
  | Borrowed (s : list ascii)
  | Owned (s : list ascii).

Inductive io_event : Type :=
  | IO_fopen (path : list ascii)
  | IO_fgets
  | IO_stderr.

(** [strrchr(s, c)]: the offset of the last occurrence of [c]. *)
Fixpoint strrchr (s : list ascii) (c : ascii) : option nat :=
  match s with
  | [] => None
  | x :: s' =>
      match strrchr s' c with
      | Some i => Some (S i)
      | None => if (x =? c)%char then Some 0 else None
      end
  end.

(** [strcmp] on two C strings; only its being zero is used. *)
Fixpoint strcmp (s1 s2 : list ascii) : Z :=
  let c2 := byte_at s2 0 in
  match s1 with
  | [] => (0 - Z.of_nat (nat_of_ascii c2))%Z
  | c1 :: s1' =>
      if negb (c1 =? c2)%char then (Z.of_nat (nat_of_ascii c1) - Z.of_nat (nat_of_ascii c2))%Z
      else if (c1 =? NUL)%char then 0%Z
      else strcmp s1' (tail s2)
  end.

(** Modelled from the spec: the macro [streq] of spidey.h, which utils.c
    uses for the comparison the spec calls case-sensitive and exact:
    [strcmp(a, b) == 0]. *)
Definition streq (a b : list ascii) : bool := (strcmp a b =? 0)%Z.

(** [fgets] reads bytes up to and including a newline, [n] at most. *)
Fixpoint read_line (n : nat) (stream : list ascii) : list ascii * list ascii :=
  match n, stream with
  | S n', c :: rest =>
      if (c =? newline)%char then ([c], rest)
      else let '(line, rest') := read_line n' rest in (c :: line, rest')
  | _, _ => ([], stream)
  end.

(** [fgets(buffer, size, fs)]: the bytes stored in [buffer], terminator
    included, and what is left of the stream; [None] at end of file. *)
Definition fgets (size : nat) (stream : list ascii) : option (list ascii * list ascii) :=
  match size, stream with
  | 0, _ => None
  | _, [] => None
  | S n, _ :: _ => let '(line, rest) := read_line n stream in Some (line ++ [NUL], rest)
  end.

(** [while (c < back && isspace( *back)) back--;] with [c] at offset 0. *)
Fixpoint trim_back (buf : list ascii) (back : nat) : nat :=
  match back with
  | 0 => 0
  | S back' => if isspace (byte_at buf back) then trim_back buf back' else back
  end.

(** Lines 67-72: cut [buffer] after the last non-blank byte of the string
    at its start and duplicate that string. With an empty string [back]
    would be [c - 1], a pointer before the array. *)
Definition take_mimetype (buf : list ascii) : outcome (list ascii) :=
  match strlen buf with
  | 0 => Fault
  | S n => let back := trim_back buf n in Done (c_string (<[S back := NUL]> buf))
  end.

Section Rules.
Variable BUFSIZ : nat.
Variable WHITESPACE : list ascii.
Variable MimeTypesPath : list ascii.
Variable DefaultMimeType : list ascii.

Definition is_delim (c : ascii) : bool := existsb (Ascii.eqb c) WHITESPACE.

(** [strspn(s, WHITESPACE)] and [strcspn(s, WHITESPACE)]. *)
Fixpoint strspn (s : list ascii) : nat :=
  match s with
  | c :: s' => if is_delim c && negb (c =? NUL)%char then S (strspn s') else 0
  | [] => 0
  end.

Fixpoint strcspn (s : list ascii) : nat :=
  match s with
  | c :: s' => if is_delim c || (c =? NUL)%char then 0 else S (strcspn s')
  | [] => 0
  end.

(** [strtok(str, WHITESPACE)] with its saved pointer [olds] made explicit:
    the token (or [NULL]), the buffer after the write and the new saved
    pointer. [str = None] continues from [olds]. *)
Definition strtok (buf : list ascii) (str : option nat) (olds : nat)
  : option nat * list ascii * nat :=
  let s := default olds str in
  let s := s + strspn (drop s buf) in
  if (byte_at buf s =? NUL)%char then (None, buf, s)
  else
    let e := s + strcspn (drop s buf) in
    if (byte_at buf e =? NUL)%char then (Some s, buf, e)
    else (Some s, <[e := NUL]> buf, S e).

(** The inner loop, lines 64-76. [Done (Some m)] is [return mimetype]. *)
Fixpoint token_loop (fuel : nat) (ext buf : list ascii) (token : option nat) (olds : nat)
  : outcome (option (list ascii)) :=
  match token with
  | None => Done None
  | Some _ =>
      match fuel with
      | 0 => OutOfFuel
      | S fuel' =>
          match Scan.skip_whitespace buf token with
          | Done (Some token) =>
              if streq (cstr_at buf token) ext
              then outcome_map Some (take_mimetype buf)
              else
                let '(token', buf', olds') := strtok buf None olds in
                token_loop fuel' ext buf' token' olds'
          | Done None => Fault
          | Fault => Fault
          | OutOfFuel => OutOfFuel
          end
      end
  end.

(** One pass of the outer loop body, lines 62-76, on the buffer [fgets]
    filled. Every [strtok] call but the last moves the saved pointer
    forward, so the length of the buffer bounds the iterations. *)
Definition scan_line (ext buffer : list ascii) : outcome (option (list ascii)) :=
  let '(token, buf, olds) := strtok buffer (Some 0) 0 in
  token_loop (length buffer) ext buf token olds.

(** The outer loop, lines 61-78, with the [fgets] calls it makes. *)
Fixpoint scan_file (fuel : nat) (ext stream : list ascii)
  : list io_event * outcome (option (list ascii)) :=
  match fuel with
  | 0 => ([], OutOfFuel)
  | S fuel' =>
      match fgets BUFSIZ stream with
      | None => ([IO_fgets], Done None)
      | Some (buffer, rest) =>
          match scan_line ext buffer with
          | Done None =>
              let '(log, r) := scan_file fuel' ext rest in (IO_fgets :: log, r)
          | r => ([IO_fgets], r)
          end
      end
  end.

Definition to_mimetype (r : option (list ascii)) : mimetype :=
  match r with
  | Some m => Owned m
  | None => Borrowed DefaultMimeType
  end.

(** [fopen] is the file system: the bytes of the file at a path, [None]
    when it cannot be opened. The result comes with the I/O performed. *)
Definition determine_mimetype (fopen : list ascii → option (list ascii))
    (path : option (list ascii)) : list io_event * outcome mimetype :=
  match path with
  | None => ([], Done (Borrowed DefaultMimeType))
  | Some path =>
      match strrchr path "." with
      | None => ([], Done (Borrowed DefaultMimeType))
      | Some temp =>
          let ext := drop (S temp) path in
          match fopen MimeTypesPath with
          | None => ([IO_fopen MimeTypesPath; IO_stderr], Done (Borrowed DefaultMimeType))
          | Some fs =>
              let '(log, r) := scan_file (S (length fs)) ext fs in
              (IO_fopen MimeTypesPath :: log, outcome_map to_mimetype r)
          end
      end
  end.

(** *** What the scan computes, read off the text of a line

    The whitespace-separated tokens of the C string [line]: maximal runs
    of bytes that are not in [WHITESPACE]. [cur] is the run in progress. *)
Definition flush (cur : list ascii) : list (list ascii) :=
  match cur with
  | [] => []
  | _ :: _ => [cur]
  end.

Fixpoint tokens_from (cur line : list ascii) : list (list ascii) :=
  match line with
  | [] => flush cur
  | c :: line' =>
      if (c =? NUL)%char then flush cur
      else if is_delim c then flush cur ++ tokens_from [] line'
      else tokens_from (cur ++ [c]) line'
  end.

Definition tokens (line : list ascii) : list (list ascii) := tokens_from [] line.

(** A byte that starts or continues a token. *)
Definition token_byte (c : ascii) : Prop := c ≠ NUL ∧ is_delim c = false.

(** A token as line 65-66 tests it: leading [isspace] bytes dropped, then
    compared with the extension. *)
Fixpoint skip_blanks (t : list ascii) : list ascii :=
  match t with
  | c :: t' => if isspace c then skip_blanks t' else t
  | [] => []
  end.

Definition candidate (ext t : list ascii) : bool := streq (skip_blanks t) ext.

Definition line_matches (ext line : list ascii) : bool :=
  existsb (candidate ext) (tokens line).

(** The bytes of the line up to the end of its first token. *)
Definition leading_field (line : list ascii) : list ascii :=
  take (strspn line + strcspn (drop (strspn line) line)) line.

(** A field without its trailing [isspace] bytes; the first byte stays. *)
Definition cut_trailing (field : list ascii) : list ascii :=
  take (S (trim_back field (length field - 1))) field.

(** The buffers the successive [fgets] calls fill from a stream. *)
Fixpoint rule_lines (fuel : nat) (stream : list ascii) : list (list ascii) :=
  match fuel with
  | 0 => []
  | S fuel' =>
      match fgets BUFSIZ stream with
      | None => []
      | Some (buffer, rest) => buffer :: rule_lines fuel' rest
      end
  end.

(** Fuel for every byte of the file and one more call, which meets the
    end of the file. *)
Definition file_lines (fs : list ascii) : list (list ascii) :=
  rule_lines (S (length fs)) fs.

(** The value the scan of a rules file comes to. *)
Definition first_match (ext : list ascii) (lines : list (list ascii)) : option (list ascii) :=
  (λ line, cut_trailing (leading_field line)) <$> find (line_matches ext) lines.

(** Following the spec (section 4.2, steps 5 and 6): only the tokens
    after the first of a line are compared with the extension, exactly,
    and the first line that holds one gives its first token. *)
Definition spec_line_matches (ext line : list ascii) : bool :=
  existsb (λ t, bool_decide (t = ext)) (tail (tokens line)).

Definition spec_first_match (ext : list ascii) (lines : list (list ascii))
  : option (list ascii) :=
  (λ line, default [] (head (tokens line))) <$> find (spec_line_matches ext) lines.

(** A line as the rules file is meant to hold it: blank, or a rule that
    starts with its type name; no token holds a blank byte, and the type
    name is not the extension looked for. *)
Definition plain_rule (ext line : list ascii) : Prop :=
  (tokens line = [] ∨ is_delim (byte_at line 0) = false)
  ∧ Forall (Forall (λ c, isspace c = false)) (tokens line)
  ∧ head (tokens line) ≠ Some ext.
End Rules.

(** The [fgets] calls a scan makes on the buffers [lines]: one for every
    buffer up to the first that holds a candidate, and the call that meets
    the end of the file when none does. *)
Fixpoint reads (WHITESPACE ext : list ascii) (lines : list (list ascii)) : nat :=
  match lines with
  | [] => 1
  | line :: lines' =>
      if line_matches WHITESPACE ext line then 1 else S (reads WHITESPACE ext lines')
  end.

(** Following the spec (section 4.2, step 1): the final segment of a path,
    the bytes after its last separator. *)
Definition final_segment (path : list ascii) : list ascii :=
  match strrchr path "/" with
  | Some i => drop (S i) path
  | None => path
  end.

(** The delimiters of the examples: space, tab, newline. *)
Definition WHITESPACE_example : list ascii := [" "; "009"; newline]%char.

(** A text file of the given lines, each closed by a newline. *)
Definition join_lines (lines : list (list ascii)) : list ascii :=
  concat (map (λ l, l ++ [newline]) lines).

Definition text (lines : list string) : list ascii := join_lines (map bytes lines).

(** A file system for the examples: the rules file holds [rules]. *)
Definition rules_file (rules : list string) : list ascii → option (list ascii) :=
  λ p, if bool_decide (p = bytes "/etc/mime.types") then Some (text rules) else None.

(** [determine_mimetype] in the configuration of the examples. *)
Definition example_mimetype (rules : list string) (path : string)
  : list io_event * outcome mimetype :=
  determine_mimetype BUFSIZ_glibc WHITESPACE_example (bytes "/etc/mime.types")
    (bytes "text/plain") (rules_file rules) (Some (bytes path)).

End Mime.

(** * Properties *)

(** ** Bytes and C strings *)

Section CStrings.
Implicit Types (s buf : list ascii) (c : ascii).

Lemma eqb_NUL c : (c =? NUL)%char = true ↔ c = NUL.
Proof. apply Ascii.eqb_eq. Qed.

Lemma isspace_NUL : isspace NUL = false.
Proof. reflexivity. Qed.

Lemma isspace_not_NUL c : isspace c = true → c ≠ NUL.
Proof. intros H ->. discriminate. Qed.

Lemma byte_at_cons_0 c s : byte_at (c :: s) 0 = c.
Proof. reflexivity. Qed.

Lemma byte_at_cons_S c s i : byte_at (c :: s) (S i) = byte_at s i.
Proof. reflexivity. Qed.

Lemma byte_at_drop buf p i : byte_at (drop p buf) i = byte_at buf (p + i).
Proof. unfold byte_at. by rewrite lookup_drop. Qed.

Lemma byte_at_ge buf i : length buf ≤ i → byte_at buf i = NUL.
Proof. intros H. unfold byte_at. by rewrite lookup_ge_None_2. Qed.

Lemma c_string_no_NUL s : NUL ∉ c_string s.
Proof.
  induction s as [|c s IH]; simpl; [apply not_elem_of_nil|].
  destruct (c =? NUL)%char eqn:E; [apply not_elem_of_nil|].
  apply not_elem_of_cons. split; [|done].
  intros <-. by rewrite Ascii.eqb_refl in E.
Qed.

Lemma c_string_id s : NUL ∉ s → c_string s = s.
Proof.
  induction s as [|c s IH]; simpl; [done|].
  intros [Hc Hs]%not_elem_of_cons.
  destruct (c =? NUL)%char eqn:E.
  - apply eqb_NUL in E. congruence.
  - by rewrite IH.
Qed.

Lemma strlen_id s : NUL ∉ s → strlen s = length s.
Proof. intros H. unfold strlen. by rewrite c_string_id. Qed.

Lemma strlen_le s : strlen s ≤ length s.
Proof.
  unfold strlen. induction s as [|c s IH]; simpl; [lia|].
  destruct (c =? NUL)%char; simpl; lia.
Qed.

(** The string is the bytes before its length, and [NUL] follows. *)
Lemma c_string_take s : c_string s = take (strlen s) s.
Proof.
  unfold strlen. induction s as [|c s IH]; simpl; [done|].
  destruct (c =? NUL)%char; simpl; [done|]. by rewrite <-IH.
Qed.

Lemma byte_at_strlen s : byte_at s (strlen s) = NUL.
Proof.
  unfold strlen. induction s as [|c s IH]; simpl; [done|].
  destruct (c =? NUL)%char eqn:E; simpl; [by apply eqb_NUL in E|done].
Qed.

Lemma c_string_app_NUL s t : NUL ∉ s → c_string (s ++ NUL :: t) = s.
Proof.
  induction s as [|c s IH]; simpl; [done|].
  intros [Hc Hs]%not_elem_of_cons.
  destruct (c =? NUL)%char eqn:E.
  - apply eqb_NUL in E. congruence.
  - by rewrite IH.
Qed.
End CStrings.

(** ** Text-scan primitives *)

Module ScanFacts.
Import Scan.

Lemma skip_whitespace_null mem : skip_whitespace mem None = Done None.
Proof. reflexivity. Qed.

Lemma skip_nonwhitespace_null mem : skip_nonwhitespace mem None = Done None.
Proof. reflexivity. Qed.

(** On bytes that hold a terminator the whitespace loop returns: it stops
    inside the string, at the first byte that is not blank, having passed
    blanks only. *)
Lemma skip_whitespace_loop_run (rest : list ascii) (s : nat) :
  NUL ∈ rest →
  ∃ n, skip_whitespace_loop rest s = Done (s + n)
       ∧ n ≤ strlen rest
       ∧ Forall (λ c, isspace c = true) (take n rest)
       ∧ isspace (byte_at rest n) = false.
Proof.
  revert s. induction rest as [|c rest IH]; intros s Hin.
  - by apply elem_of_nil in Hin.
  - simpl. destruct (isspace c) eqn:Hc.
    + assert (c ≠ NUL) as Hne by by apply isspace_not_NUL.
      apply elem_of_cons in Hin as [?|Hin]; [congruence|].
      destruct (IH (S s) Hin) as (n & Hrun & Hle & Hall & Hstop).
      exists (S n). rewrite Hrun. split; [f_equal; lia|].
      unfold strlen in *. simpl.
      destruct (c =? NUL)%char eqn:E; [by apply eqb_NUL in E|].
      simpl. split; [lia|]. split; [by constructor|done].
    + exists 0. rewrite Nat.add_0_r. repeat split; [lia|constructor|done].
Qed.

Lemma skip_whitespace_total (mem : list ascii) (p : nat) :
  NUL ∈ drop p mem →
  ∃ q, skip_whitespace mem (Some p) = Done (Some q)
       ∧ p ≤ q ≤ p + strlen (drop p mem)
       ∧ (∀ i, p ≤ i < q → isspace (byte_at mem i) = true)
       ∧ isspace (byte_at mem q) = false.
Proof.
  intros Hin. destruct (skip_whitespace_loop_run _ p Hin) as (n & Hrun & Hle & Hall & Hstop).
  exists (p + n). simpl. rewrite Hrun. simpl. split; [done|]. split; [lia|].
  split; [|by rewrite <-byte_at_drop].
  intros i Hi. replace i with (p + (i - p)) by lia. rewrite <-byte_at_drop.
  rewrite Forall_lookup in Hall. unfold byte_at.
  destruct (take n (drop p mem) !! (i - p)) as [c|] eqn:Hl.
  - pose proof (Hall _ _ Hl) as Hsp. rewrite lookup_take_lt in Hl by lia. by rewrite Hl.
  - apply lookup_ge_None in Hl. rewrite length_take in Hl.
    pose proof (strlen_le (drop p mem)). lia.
Qed.

(** No leading whitespace: the cursor comes back unchanged. *)
Lemma skip_whitespace_unchanged (mem : list ascii) (p : nat) :
  p < length mem → isspace (byte_at mem p) = false →
  skip_whitespace mem (Some p) = Done (Some p).
Proof.
  intros Hp Hc. simpl. destruct (drop p mem) as [|c rest] eqn:Hd.
  - apply (f_equal length) in Hd. rewrite length_drop in Hd. simpl in Hd. lia.
  - assert (byte_at mem p = c) as <-.
    { rewrite <-(Nat.add_0_r p), <-byte_at_drop, Hd. done. }
    simpl. by rewrite Hc.
Qed.

(** An all-blank string: the cursor ends on the terminator. *)
Lemma skip_whitespace_all_blank (mem : list ascii) (p : nat) :
  NUL ∈ drop p mem →
  Forall (λ c, isspace c = true) (cstr_at mem p) →
  skip_whitespace mem (Some p) = Done (Some (p + strlen (drop p mem))).
Proof.
  intros Hin Hall.
  destruct (skip_whitespace_total mem p Hin) as (q & -> & Hq & Hblank & Hstop).
  do 2 f_equal. destruct (decide (q = p + strlen (drop p mem))) as [|Hne]; [done|].
  exfalso. unfold cstr_at in Hall. rewrite c_string_take in Hall.
  rewrite Forall_lookup in Hall.
  assert (is_Some (take (strlen (drop p mem)) (drop p mem) !! (q - p))) as [c Hc].
  { apply lookup_lt_is_Some. rewrite length_take. pose proof (strlen_le (drop p mem)). lia. }
  pose proof (Hall _ _ Hc) as Hsp. rewrite lookup_take_lt in Hc by lia.
  rewrite lookup_drop in Hc. replace (p + (q - p)) with q in Hc by lia.
  unfold byte_at in Hstop. rewrite Hc in Hstop. simpl in Hstop. congruence.
Qed.

(** When the other loop returns, it is on a whitespace byte, and it has
    passed every byte that is not one, terminators included. *)
Lemma skip_nonwhitespace_loop_stop (rest : list ascii) (s q : nat) :
  skip_nonwhitespace_loop rest s = Done q →
  s ≤ q ∧ isspace (byte_at rest (q - s)) = true
  ∧ Forall (λ c, isspace c = false) (take (q - s) rest).
Proof.
  revert s. induction rest as [|c rest IH]; intros s; simpl; [done|].
  destruct (isspace c) eqn:Hc; simpl.
  - intros [= <-]. rewrite Nat.sub_diag. repeat split; [lia|done|constructor].
  - intros H. apply IH in H as (Hle & Hsp & Hall).
    replace (q - s) with (S (q - S s)) by lia. simpl.
    split; [lia|]. split; [done|]. by constructor.
Qed.

(** Without a whitespace byte in the array the loop reads past its end. *)
Lemma skip_nonwhitespace_loop_overrun (rest : list ascii) (s : nat) :
  Forall (λ c, isspace c = false) rest → skip_nonwhitespace_loop rest s = Fault.
Proof.
  revert s. induction rest as [|c rest IH]; intros s Hall; simpl; [done|].
  inversion Hall as [|?? Hc Hrest]; subst. rewrite Hc. simpl. by apply IH.
Qed.

(** On a string without a whitespace byte the cursor, if one comes back,
    is beyond the terminator of the string. *)
Lemma skip_nonwhitespace_leaves_string (mem : list ascii) (p q : nat) :
  Forall (λ c, isspace c = false) (cstr_at mem p) →
  skip_nonwhitespace mem (Some p) = Done (Some q) →
  p + strlen (drop p mem) < q.
Proof.
  intros Hall Hret. simpl in Hret.
  destruct (skip_nonwhitespace_loop (drop p mem) p) as [q'| |] eqn:Hloop; try done.
  injection Hret as ->. apply skip_nonwhitespace_loop_stop in Hloop as (Hle & Hsp & _).
  destruct (decide (p + strlen (drop p mem) < q)) as [|Hin]; [done|]. exfalso.
  destruct (decide (q - p = strlen (drop p mem))) as [Heq|Hne].
  - rewrite Heq, byte_at_strlen in Hsp. done.
  - unfold cstr_at in Hall. rewrite c_string_take, Forall_lookup in Hall.
    assert (is_Some (take (strlen (drop p mem)) (drop p mem) !! (q - p))) as [c Hc].
    { apply lookup_lt_is_Some. rewrite length_take.
      pose proof (strlen_le (drop p mem)). lia. }
    pose proof (Hall _ _ Hc) as Hns. rewrite lookup_take_lt in Hc by lia.
    unfold byte_at in Hsp. rewrite Hc in Hsp. simpl in Hsp. congruence.
Qed.

(** C8: [skip_nonwhitespace] does not stop at the end of the string. On
    the four bytes of "abc" it reads past the terminator and out of the
    array; with more bytes behind the terminator it returns a cursor
    beyond the end of the string. [skip_whitespace] on the same arrays
    returns the cursor it was given, and a null cursor is returned as it
    is by both. *)
Theorem skip_nonwhitespace_passes_terminator :
  skip_nonwhitespace (bytes "abc" ++ [NUL]) (Some 0) = Fault
  ∧ strlen (bytes "abc" ++ [NUL] ++ bytes " x" ++ [NUL]) = 3
  ∧ skip_nonwhitespace (bytes "abc" ++ [NUL] ++ bytes " x" ++ [NUL]) (Some 0) = Done (Some 4)
  ∧ skip_whitespace (bytes "abc" ++ [NUL]) (Some 0) = Done (Some 0)
  ∧ skip_nonwhitespace (bytes "abc" ++ [NUL]) None = Done None.
Proof. repeat split. Qed.

End ScanFacts.

(** ** Status phrases *)

Module StatusFacts.
Import Status.

(** C9: the four enumerators map to their phrases, every other code to
    nothing, and no code at all to the teapot entry of the table. The
    enumerators are those of one C enumeration, hence pairwise distinct. *)
Theorem http_status_string_table (OK BAD_REQUEST NOT_FOUND INTERNAL_SERVER_ERROR : Z) :
  NoDup [OK; BAD_REQUEST; NOT_FOUND; INTERNAL_SERVER_ERROR] →
  let phrase := http_status_string OK BAD_REQUEST NOT_FOUND INTERNAL_SERVER_ERROR in
  phrase OK = Some "200 OK"%string
  ∧ phrase BAD_REQUEST = Some "400 Bad Request"%string
  ∧ phrase NOT_FOUND = Some "404 Not Found"%string
  ∧ phrase INTERNAL_SERVER_ERROR = Some "500 Internal Server Error"%string
  ∧ (∀ status, status ∉ [OK; BAD_REQUEST; NOT_FOUND; INTERNAL_SERVER_ERROR] → phrase status = None)
  ∧ (∀ status, phrase status ≠ StatusStrings !! 4)
  ∧ StatusStrings !! 4 = Some "418 I'm A Teapot"%string.
Proof.
  intros Hnd phrase. subst phrase. unfold http_status_string.
  rewrite !NoDup_cons in Hnd. rewrite !not_elem_of_cons in Hnd.
  destruct Hnd as ((? & ? & ? & _) & (? & ? & _) & (? & _) & _).
  repeat split.
  - by rewrite Z.eqb_refl.
  - rewrite Z.eqb_refl. by destruct (Z.eqb_spec BAD_REQUEST OK).
  - rewrite Z.eqb_refl.
    destruct (Z.eqb_spec NOT_FOUND OK); [congruence|].
    by destruct (Z.eqb_spec NOT_FOUND BAD_REQUEST).
  - rewrite Z.eqb_refl.
    destruct (Z.eqb_spec INTERNAL_SERVER_ERROR OK); [congruence|].
    destruct (Z.eqb_spec INTERNAL_SERVER_ERROR BAD_REQUEST); [congruence|].
    by destruct (Z.eqb_spec INTERNAL_SERVER_ERROR NOT_FOUND).
  - intros status Hs. rewrite !not_elem_of_cons in Hs. destruct Hs as (? & ? & ? & ? & _).
    repeat (case Z.eqb_spec; [congruence|intros _]). done.
  - intros status. repeat (case Z.eqb_spec; [discriminate|intros _]). discriminate.
Qed.

Lemma http_status_string_table_witness :
  http_status_string 0 1 2 3 0 = Some "200 OK"%string
  ∧ http_status_string 0 1 2 3 2 = Some "404 Not Found"%string
  ∧ http_status_string 0 1 2 3 4 = None.
Proof.
  assert (NoDup [0; 1; 2; 3]%Z) as Hnd by (by apply (bool_decide_unpack _)).
  destruct (http_status_string_table 0 1 2 3 Hnd) as (H0 & _ & H2 & _ & Hout & _).
  split; [exact H0|]. split; [exact H2|].
  apply Hout. by apply (bool_decide_unpack _).
Defined.

End StatusFacts.

(** ** Request paths *)

Module RequestFacts.
Import Request.

(** Over the length of a well-formed [root], [strncmp] is zero exactly on
    the strings that start with the bytes of [root]. *)
Lemma strncmp_prefix (root p : list ascii) :
  NUL ∉ root → (strncmp p root (length root) = 0%Z ↔ root `prefix_of` p).
Proof.
  revert p. induction root as [|r root IH]; intros p Hnul; simpl.
  - split; [intros _; apply prefix_nil|done].
  - apply not_elem_of_cons in Hnul as [Hr Hroot].
    rewrite byte_at_cons_0. destruct p as [|c p].
    + change (byte_at [] 0) with NUL.
      destruct (NUL =? r)%char eqn:E; [apply Ascii.eqb_eq in E; congruence|]. simpl.
      split; [|by intros ?%prefix_nil_not].
      intros H. exfalso. apply Hr. change (nat_of_ascii NUL) with 0 in H.
      assert (nat_of_ascii r = 0) as H0 by lia.
      rewrite <-(ascii_nat_embedding r), H0. done.
    + rewrite byte_at_cons_0. simpl. destruct (c =? r)%char eqn:E; simpl.
      * apply Ascii.eqb_eq in E as ->.
        destruct (r =? NUL)%char eqn:E'; [apply eqb_NUL in E'; congruence|].
        rewrite IH by done. split; [by apply prefix_cons|by intros ?%prefix_cons_inv_2].
      * assert (c ≠ r) as Hne by (intros ->; by rewrite Ascii.eqb_refl in E).
        split; [|by intros ?%prefix_cons_inv_1].
        intros H. exfalso. apply Hne.
        rewrite <-(ascii_nat_embedding c), <-(ascii_nat_embedding r). f_equal. lia.
Qed.

Section Resolver.
Variable BUFSIZ : nat.
Variable RootPath : list ascii.
Variable realpath : list ascii → option (list ascii).
Hypothesis RootPath_wf : NUL ∉ RootPath.

Local Abbreviation resolve := (determine_request_path BUFSIZ RootPath realpath).
Local Abbreviation fits := (fits BUFSIZ RootPath).

Lemma resolve_overrun uri : ¬ fits uri → resolve uri = Fault.
Proof.
  unfold fits, determine_request_path. intros H.
  destruct (Nat.ltb_spec BUFSIZ (length (RootPath ++ uri) + 1)); [done|lia].
Qed.

Lemma resolve_fits uri :
  fits uri →
  resolve uri =
    match realpath (RootPath ++ uri) with
    | None => Done None
    | Some p => if bool_decide (RootPath `prefix_of` p) then Done (Some p) else Done None
    end.
Proof.
  unfold fits, determine_request_path. intros H.
  destruct (Nat.ltb_spec BUFSIZ (length (RootPath ++ uri) + 1)); [lia|].
  destruct (realpath (RootPath ++ uri)) as [p|]; [|done].
  rewrite strlen_id by done.
  pose proof (strncmp_prefix RootPath p RootPath_wf) as Hiff.
  destruct (Z.eqb_spec (strncmp p RootPath (length RootPath)) 0) as [E|E]; simpl.
  - rewrite bool_decide_eq_true_2; [done|by apply Hiff].
  - rewrite bool_decide_eq_false_2; [done|]. intros ?%Hiff. congruence.
Qed.

Lemma resolve_Some uri p :
  resolve uri = Done (Some p) →
  fits uri ∧ realpath (RootPath ++ uri) = Some p ∧ RootPath `prefix_of` p.
Proof.
  intros H. destruct (decide (length (RootPath ++ uri) < BUFSIZ)) as [Hfit|Hfit].
  - rewrite resolve_fits in H by done. split; [done|].
    destruct (realpath (RootPath ++ uri)) as [q|]; [|done].
    case_bool_decide; [|done]. by injection H as ->.
  - by rewrite resolve_overrun in H.
Qed.
End Resolver.

(** C1 as stated fails: with the root /srv/www the URI /../wwwhack
    leaves the root directory, and the call returns /srv/wwwhack, a path
    that is neither the root nor below it. *)
Lemma sibling_directory_returned :
  determine_request_path BUFSIZ_glibc (bytes "/srv/www")
    (only (bytes "/srv/www/../wwwhack") (bytes "/srv/wwwhack")) (bytes "/../wwwhack")
  = Done (Some (bytes "/srv/wwwhack"))
  ∧ ¬ within_directory (bytes "/srv/www") (bytes "/srv/wwwhack").
Proof.
  split; [reflexivity|]. unfold within_directory. by apply (bool_decide_unpack _).
Qed.

(** C1, amended: for a root and a URI that together fit the buffer, the
    call returns nothing or the canonical path [realpath] gave for the
    candidate, and that path begins with the bytes of [RootPath]; a
    canonical path that does not is refused. A returned path lies within
    the root directory, or goes on behind [RootPath] with a byte that is
    not the separator. *)
Theorem determine_request_path_sandbox BUFSIZ RootPath realpath (uri : list ascii) :
  NUL ∉ RootPath →
  length (RootPath ++ uri) < BUFSIZ →
  let result := determine_request_path BUFSIZ RootPath realpath uri in
  (result = Done None
   ∨ ∃ p, result = Done (Some p)
          ∧ realpath (RootPath ++ uri) = Some p ∧ RootPath `prefix_of` p)
  ∧ (∀ p, realpath (RootPath ++ uri) = Some p → ¬ RootPath `prefix_of` p →
          result = Done None)
  ∧ (∀ p, result = Done (Some p) →
          within_directory RootPath p
          ∨ ∃ c more, p = RootPath ++ c :: more ∧ c ≠ "/"%char).
Proof.
  intros Hwf Hfit result. subst result. rewrite resolve_fits by done.
  destruct (realpath (RootPath ++ uri)) as [q|].
  - case_bool_decide as Hpre.
    + split; [right; by exists q|]. split; [by intros p [= <-] ?|].
      intros p [= <-]. destruct Hpre as [[|c more] ->].
      * left. left. by rewrite app_nil_r.
      * destruct (decide (c = "/"%char)) as [->|Hc].
        -- left. right. exists more. by rewrite <-app_assoc.
        -- right. by exists c, more.
    + split; [by left|]. split; done.
  - split; [by left|]. split; done.
Qed.

Lemma determine_request_path_sandbox_witness :
  determine_request_path 64 (bytes "/srv/www")
    (only (bytes "/srv/www/a/../index.html") (bytes "/srv/www/index.html"))
    (bytes "/a/../index.html")
  = Done (Some (bytes "/srv/www/index.html"))
  ∧ within_directory (bytes "/srv/www") (bytes "/srv/www/index.html").
Proof.
  assert (NUL ∉ bytes "/srv/www") as Hwf by (by apply (bool_decide_unpack _)).
  assert (length (bytes "/srv/www" ++ bytes "/a/../index.html") < 64) as Hfit
    by (vm_compute; lia).
  destruct (determine_request_path_sandbox 64 (bytes "/srv/www")
              (only (bytes "/srv/www/a/../index.html") (bytes "/srv/www/index.html"))
              (bytes "/a/../index.html") Hwf Hfit) as (_ & _ & Hin).
  split; [reflexivity|].
  destruct (Hin (bytes "/srv/www/index.html") eq_refl) as [?|(c & more & Heq & Hc)]; [done|].
  exfalso. apply Hc. by injection Heq as <- _.
Defined.

(** C2: a candidate longer than the buffer is not rejected. With the
    glibc value of [BUFSIZ], the root /home/user/public_html and a URI of
    8171 bytes, [sprintf] writes 8194 bytes into the 8192 of [buffer],
    whatever the file system holds: the call is undefined, it does not
    return [NULL]. *)
Theorem determine_request_path_oversized_uri :
  let RootPath := bytes "/home/user/public_html" in
  let uri := bytes "/" ++ repeat "a"%char (BUFSIZ_glibc - 22) in
  length uri < BUFSIZ_glibc
  ∧ length (RootPath ++ uri) + 1 = BUFSIZ_glibc + 2
  ∧ ∀ realpath, determine_request_path BUFSIZ_glibc RootPath realpath uri = Fault
                ∧ determine_request_path BUFSIZ_glibc RootPath realpath uri ≠ Done None.
Proof.
  intros RootPath uri.
  assert (22 ≤ BUFSIZ_glibc) as Hbig by (vm_compute; lia).
  assert (length uri = BUFSIZ_glibc - 21) as Huri.
  { subst uri. rewrite length_app, repeat_length. change (length (bytes "/")) with 1. lia. }
  assert (length (RootPath ++ uri) = BUFSIZ_glibc + 1) as Hlen.
  { rewrite length_app, Huri. change (length RootPath) with 22. lia. }
  split; [lia|]. split; [lia|]. intros realpath.
  assert (determine_request_path BUFSIZ_glibc RootPath realpath uri = Fault) as ->.
  { apply resolve_overrun. unfold fits. lia. }
  done.
Qed.

(** C3: once the candidate is canonicalized, the check is the literal
    prefix test and nothing more: the canonical path is returned exactly
    when it starts with the bytes of [RootPath], so [RootPath] followed by
    any bytes at all, a separator or not, is accepted. *)
Theorem sandbox_check_is_literal_prefix BUFSIZ RootPath realpath (uri p : list ascii) :
  NUL ∉ RootPath →
  length (RootPath ++ uri) < BUFSIZ →
  realpath (RootPath ++ uri) = Some p →
  (determine_request_path BUFSIZ RootPath realpath uri = Done (Some p) ↔ RootPath `prefix_of` p)
  ∧ (∀ more, p = RootPath ++ more →
             determine_request_path BUFSIZ RootPath realpath uri = Done (Some (RootPath ++ more))).
Proof.
  intros Hwf Hfit Hreal.
  assert (∀ q, RootPath `prefix_of` q → realpath (RootPath ++ uri) = Some q →
               determine_request_path BUFSIZ RootPath realpath uri = Done (Some q)) as Hacc.
  { intros q Hpre Hq. rewrite resolve_fits, Hq by done. by rewrite bool_decide_eq_true_2. }
  split; [split|].
  - intros H. by apply resolve_Some in H as (_ & _ & ?).
  - intros Hpre. by apply Hacc.
  - intros more ->. apply Hacc; [by apply prefix_app_r|done].
Qed.

(** A sibling directory: root /srv/www, canonical path /srv/wwwhack. *)
Lemma sandbox_check_is_literal_prefix_witness :
  determine_request_path BUFSIZ_glibc (bytes "/srv/www")
    (only (bytes "/srv/www/../wwwhack") (bytes "/srv/wwwhack")) (bytes "/../wwwhack")
  = Done (Some (bytes "/srv/wwwhack")).
Proof.
  assert (NUL ∉ bytes "/srv/www") as Hwf by (by apply (bool_decide_unpack _)).
  assert (length (bytes "/srv/www" ++ bytes "/../wwwhack") < BUFSIZ_glibc) as Hfit by (vm_compute; lia).
  destruct (sandbox_check_is_literal_prefix BUFSIZ_glibc (bytes "/srv/www")
              (only (bytes "/srv/www/../wwwhack") (bytes "/srv/wwwhack"))
              (bytes "/../wwwhack") (bytes "/srv/wwwhack") Hwf Hfit eq_refl) as [_ Hsib].
  exact (Hsib (bytes "hack") eq_refl).
Defined.

(** C4: when [realpath] fails on the candidate the call returns [NULL],
    the very value it returns when the canonical path of some candidate
    lies outside the prefix; and a path that is returned is the whole
    canonical path, never a part of one. *)
Theorem determine_request_path_uniform_absent BUFSIZ RootPath realpath (uri : list ascii) :
  length (RootPath ++ uri) < BUFSIZ →
  realpath (RootPath ++ uri) = None →
  determine_request_path BUFSIZ RootPath realpath uri = Done None
  ∧ (∀ uri' p', NUL ∉ RootPath → length (RootPath ++ uri') < BUFSIZ →
                realpath (RootPath ++ uri') = Some p' → ¬ RootPath `prefix_of` p' →
                determine_request_path BUFSIZ RootPath realpath uri'
                = determine_request_path BUFSIZ RootPath realpath uri)
  ∧ (∀ uri' p', NUL ∉ RootPath →
                determine_request_path BUFSIZ RootPath realpath uri' = Done (Some p') →
                realpath (RootPath ++ uri') = Some p').
Proof.
  intros Hfit Hreal.
  assert (determine_request_path BUFSIZ RootPath realpath uri = Done None) as Hnone.
  { unfold determine_request_path.
    destruct (Nat.ltb_spec BUFSIZ (length (RootPath ++ uri) + 1)); [lia|]. by rewrite Hreal. }
  split; [done|]. split.
  - intros uri' p' Hwf Hfit' Hreal' Hout. rewrite Hnone, resolve_fits, Hreal' by done.
    by rewrite bool_decide_eq_false_2.
  - intros uri' p' Hwf H. by apply resolve_Some in H as (_ & ? & _).
Qed.

Lemma determine_request_path_uniform_absent_witness :
  determine_request_path BUFSIZ_glibc (bytes "/srv/www")
    (only (bytes "/srv/www/../../etc/passwd") (bytes "/etc/passwd")) (bytes "/missing.html")
  = Done None
  ∧ determine_request_path BUFSIZ_glibc (bytes "/srv/www")
      (only (bytes "/srv/www/../../etc/passwd") (bytes "/etc/passwd")) (bytes "/../../etc/passwd")
    = Done None.
Proof.
  assert (length (bytes "/srv/www" ++ bytes "/missing.html") < BUFSIZ_glibc) as Hfit by (vm_compute; lia).
  destruct (determine_request_path_uniform_absent BUFSIZ_glibc (bytes "/srv/www")
              (only (bytes "/srv/www/../../etc/passwd") (bytes "/etc/passwd"))
              (bytes "/missing.html") Hfit eq_refl) as (Hnone & Hsame & _).
  split; [exact Hnone|]. rewrite <-Hnone.
  apply (Hsame _ (bytes "/etc/passwd")).
  - by apply (bool_decide_unpack _).
  - vm_compute; lia.
  - reflexivity.
  - by apply (bool_decide_unpack _).
Defined.

(** C10 as stated fails: /var/www is an existing directory, a symbolic
    link whose canonical path is /srv/www; with the root configured as
    /var/www the empty URI is refused. *)
Lemma empty_uri_symlinked_root_refused :
  let realpath := only (bytes "/var/www") (bytes "/srv/www") in
  realpath (bytes "/var/www") = Some (bytes "/srv/www")
  ∧ determine_request_path BUFSIZ_glibc (bytes "/var/www") realpath [] = Done None.
Proof. split; reflexivity. Qed.

(** C10, amended: for the empty URI, when [RootPath] names an existing
    directory, the call returns its canonical path if that path begins
    with the bytes of [RootPath] (as it does when [RootPath] is canonical
    already), and nothing otherwise. *)
Theorem determine_request_path_empty_uri BUFSIZ RootPath realpath (canonical : list ascii) :
  NUL ∉ RootPath →
  length RootPath < BUFSIZ →
  realpath RootPath = Some canonical →
  let result := determine_request_path BUFSIZ RootPath realpath [] in
  (RootPath `prefix_of` canonical → result = Done (Some canonical))
  ∧ (canonical = RootPath → result = Done (Some RootPath))
  ∧ (¬ RootPath `prefix_of` canonical → result = Done None).
Proof.
  intros Hwf Hfit Hreal result. subst result.
  rewrite resolve_fits; [|done|unfold fits; by rewrite app_nil_r].
  rewrite app_nil_r, Hreal. repeat split.
  - intros Hpre. by rewrite bool_decide_eq_true_2.
  - intros ->. by rewrite bool_decide_eq_true_2.
  - intros Hout. by rewrite bool_decide_eq_false_2.
Qed.

Lemma determine_request_path_empty_uri_witness :
  determine_request_path BUFSIZ_glibc (bytes "/srv/www")
    (only (bytes "/srv/www") (bytes "/srv/www")) []
  = Done (Some (bytes "/srv/www")).
Proof.
  assert (NUL ∉ bytes "/srv/www") as Hwf by (by apply (bool_decide_unpack _)).
  assert (length (bytes "/srv/www") < BUFSIZ_glibc) as Hfit by (vm_compute; lia).
  destruct (determine_request_path_empty_uri BUFSIZ_glibc (bytes "/srv/www")
              (only (bytes "/srv/www") (bytes "/srv/www")) (bytes "/srv/www")
              Hwf Hfit eq_refl) as (_ & Hsame & _).
  exact (Hsame eq_refl).
Defined.

End RequestFacts.

(** ** Content types *)

Module MimeFacts.
Import Mime.

Lemma nat_of_ascii_0 (c : ascii) : nat_of_ascii c = 0 → c = NUL.
Proof. intros H. rewrite <-(ascii_nat_embedding c), H. done. Qed.

Lemma byte_diff_nonzero (c1 c2 : ascii) :
  c1 ≠ c2 → (Z.of_nat (nat_of_ascii c1) - Z.of_nat (nat_of_ascii c2))%Z ≠ 0%Z.
Proof.
  intros Hne H. apply Hne.
  rewrite <-(ascii_nat_embedding c1), <-(ascii_nat_embedding c2). f_equal. lia.
Qed.

(** [strcmp] is zero exactly on equal C strings. *)
Lemma strcmp_zero (s1 s2 : list ascii) :
  strcmp s1 s2 = 0%Z ↔ c_string s1 = c_string s2.
Proof.
  revert s2. induction s1 as [|c1 s1 IH]; intros s2.
  - simpl. destruct s2 as [|c2 s2]; [done|]. rewrite byte_at_cons_0. simpl.
    destruct (c2 =? NUL)%char eqn:E.
    + apply eqb_NUL in E as ->. done.
    + split; [|done]. intros H. assert (c2 = NUL) as -> by (apply nat_of_ascii_0; lia).
      by rewrite Ascii.eqb_refl in E.
  - simpl. destruct s2 as [|c2 s2].
    + change (byte_at [] 0) with NUL. destruct (c1 =? NUL)%char eqn:E; simpl; [done|].
      split; [|done]. intros H. exfalso. revert H. apply byte_diff_nonzero.
      intros ->. by rewrite Ascii.eqb_refl in E.
    + rewrite byte_at_cons_0. simpl. destruct (c1 =? c2)%char eqn:E; simpl.
      * apply Ascii.eqb_eq in E as ->. destruct (c2 =? NUL)%char; [done|].
        rewrite IH. split; [by intros ->|by intros [= ->]].
      * assert (c1 ≠ c2) as Hne by (intros ->; by rewrite Ascii.eqb_refl in E).
        split; [intros H; exfalso; revert H; by apply byte_diff_nonzero|].
        destruct (c1 =? NUL)%char eqn:E1, (c2 =? NUL)%char eqn:E2; try done.
        -- apply eqb_NUL in E1, E2. congruence.
        -- intros [= ? _]. done.
Qed.

Lemma streq_true (a b : list ascii) : streq a b = true ↔ c_string a = c_string b.
Proof. unfold streq. rewrite Z.eqb_eq. apply strcmp_zero. Qed.

Lemma streq_exact (a b : list ascii) : NUL ∉ a → NUL ∉ b → streq a b = true ↔ a = b.
Proof. intros Ha Hb. by rewrite streq_true, !c_string_id. Qed.

(** The whitespace loop on a terminated string leaves the cursor on the
    string without its leading blanks. *)
Lemma skip_whitespace_loop_blanks (rest : list ascii) (s : nat) :
  NUL ∈ rest →
  ∃ n, Scan.skip_whitespace_loop rest s = Done (s + n)
       ∧ c_string (drop n rest) = skip_blanks (c_string rest).
Proof.
  revert s. induction rest as [|c rest IH]; intros s Hin.
  - by apply elem_of_nil in Hin.
  - simpl. destruct (isspace c) eqn:Hc.
    + assert (c ≠ NUL) as Hne by by apply isspace_not_NUL.
      apply elem_of_cons in Hin as [?|Hin]; [congruence|].
      destruct (IH (S s) Hin) as (n & Hrun & Hstr).
      exists (S n). rewrite Hrun. split; [f_equal; lia|].
      destruct (c =? NUL)%char eqn:E; [by apply eqb_NUL in E|].
      simpl. by rewrite Hc.
    + exists 0. rewrite Nat.add_0_r. split; [done|]. simpl.
      destruct (c =? NUL)%char; [done|]. simpl. by rewrite Hc.
Qed.

Lemma elem_of_drop_last (buf : list ascii) (p : nat) :
  last buf = Some NUL → p < length buf → NUL ∈ drop p buf.
Proof.
  intros Hlast Hp. apply last_Some in Hlast as [l' ->].
  rewrite length_app in Hp. simpl in Hp.
  rewrite drop_app_le by lia. apply elem_of_app. right. by apply list_elem_of_singleton.
Qed.

Lemma skip_whitespace_token (buf : list ascii) (p : nat) :
  last buf = Some NUL → p < length buf →
  ∃ q, Scan.skip_whitespace buf (Some p) = Done (Some q)
       ∧ cstr_at buf q = skip_blanks (cstr_at buf p).
Proof.
  intros Hlast Hp.
  destruct (skip_whitespace_loop_blanks (drop p buf) p) as (n & Hrun & Hstr).
  { by apply elem_of_drop_last. }
  exists (p + n). simpl. rewrite Hrun. split; [done|].
  unfold cstr_at. by rewrite <-drop_drop.
Qed.

(** Writing a terminator behind the end of the string changes nothing;
    writing it inside the string cuts the string there. *)
Lemma c_string_insert_behind (buf : list ascii) (e : nat) :
  strlen buf ≤ e → byte_at buf e ≠ NUL → c_string (<[e := NUL]> buf) = c_string buf.
Proof.
  unfold strlen. revert e. induction buf as [|c buf IH]; intros e Hle Hne; [done|].
  destruct e as [|e].
  - simpl in *. destruct (c =? NUL)%char eqn:E; [by apply eqb_NUL in E|simpl in Hle; lia].
  - simpl in *. destruct (c =? NUL)%char; [done|].
    simpl in Hle. rewrite IH; [done|lia|done].
Qed.

Lemma c_string_insert_cut (buf : list ascii) (i : nat) :
  i ≤ strlen buf → c_string (<[i := NUL]> buf) = take i buf.
Proof.
  unfold strlen. revert i. induction buf as [|c buf IH]; intros i Hle.
  - by destruct i.
  - destruct i as [|i]; [done|]. simpl in *.
    destruct (c =? NUL)%char; simpl in Hle; [lia|]. rewrite IH; [done|lia].
Qed.

Lemma trim_back_le (buf : list ascii) (n : nat) : trim_back buf n ≤ n.
Proof.
  induction n as [|n IH]; simpl; [done|].
  destruct (isspace (byte_at buf (S n))); lia.
Qed.

Lemma trim_back_take (buf : list ascii) (n k : nat) :
  n < k → trim_back (take k buf) n = trim_back buf n.
Proof.
  induction n as [|n IH]; intros Hk; simpl; [done|].
  unfold byte_at at 1. rewrite lookup_take_lt by lia. fold (byte_at buf (S n)).
  destruct (isspace (byte_at buf (S n))); [apply IH; lia|done].
Qed.

(** Lines 67-72 return the string at the start of the buffer without its
    trailing blanks. *)
Lemma take_mimetype_field (buf : list ascii) :
  c_string buf ≠ [] → take_mimetype buf = Done (cut_trailing (c_string buf)).
Proof.
  intros Hne. unfold take_mimetype, cut_trailing.
  destruct (strlen buf) as [|n] eqn:Hlen.
  { unfold strlen in Hlen. by apply nil_length_inv in Hlen. }
  pose proof (trim_back_le buf n) as Hback.
  rewrite c_string_insert_cut by lia. f_equal.
  rewrite c_string_take, Hlen. rewrite length_take_le by (pose proof (strlen_le buf); lia).
  replace (S n - 1) with n by lia.
  rewrite trim_back_take by lia. rewrite take_take. f_equal. lia.
Qed.

Section Tokens.
Variable WHITESPACE : list ascii.

Local Abbreviation is_delim := (is_delim WHITESPACE).
Local Abbreviation strspn := (strspn WHITESPACE).
Local Abbreviation strcspn := (strcspn WHITESPACE).
Local Abbreviation strtok := (strtok WHITESPACE).
Local Abbreviation tokens := (tokens WHITESPACE).
Local Abbreviation tokens_from := (tokens_from WHITESPACE).
Local Abbreviation token_byte := (token_byte WHITESPACE).

Lemma strspn_le (s : list ascii) : strspn s ≤ strlen s.
Proof.
  unfold strlen. induction s as [|c s IH]; simpl; [done|].
  destruct (is_delim c); simpl; [|lia].
  destruct (c =? NUL)%char; simpl; lia.
Qed.

Lemma strcspn_le (s : list ascii) : strcspn s ≤ strlen s.
Proof.
  unfold strlen. induction s as [|c s IH]; simpl; [done|].
  destruct (is_delim c); simpl; [lia|].
  destruct (c =? NUL)%char; simpl; lia.
Qed.

(** [strspn] stops on the terminator or on the first byte of a token. *)
Lemma strspn_stop (s : list ascii) :
  byte_at s (strspn s) = NUL ∨ token_byte (byte_at s (strspn s)).
Proof.
  induction s as [|c s IH]; simpl; [by left|].
  destruct (is_delim c) eqn:Hd; simpl.
  - destruct (c =? NUL)%char eqn:E; simpl; [left; by apply eqb_NUL in E|done].
  - rewrite byte_at_cons_0. destruct (c =? NUL)%char eqn:E; [left; by apply eqb_NUL in E|].
    right. split; [|done]. intros ->. by rewrite Ascii.eqb_refl in E.
Qed.

(** [strcspn] stops on the terminator or on a delimiter. *)
Lemma strcspn_stop (s : list ascii) :
  byte_at s (strcspn s) = NUL ∨ is_delim (byte_at s (strcspn s)) = true.
Proof.
  induction s as [|c s IH]; simpl; [by left|].
  destruct (is_delim c) eqn:Hd; simpl; [right; by rewrite byte_at_cons_0|].
  destruct (c =? NUL)%char eqn:E; simpl; [left; by apply eqb_NUL in E|done].
Qed.

Lemma strcspn_token_bytes (s : list ascii) : Forall token_byte (take (strcspn s) s).
Proof.
  induction s as [|c s IH]; simpl; [constructor|].
  destruct (is_delim c) eqn:Hd; simpl; [constructor|].
  destruct (c =? NUL)%char eqn:E; simpl; [constructor|].
  constructor; [|done]. split; [|done]. intros ->. by rewrite Ascii.eqb_refl in E.
Qed.

Lemma strcspn_pos (s : list ascii) : token_byte (byte_at s 0) → 0 < strcspn s.
Proof.
  destruct s as [|c s]; intros [Hn Hd]; [done|]. simpl in *.
  rewrite byte_at_cons_0 in Hn, Hd. rewrite Hd. simpl.
  destruct (c =? NUL)%char eqn:E; [by apply eqb_NUL in E|lia].
Qed.

Lemma strspn_delims (s : list ascii) : Forall (λ c, c ≠ NUL ∧ is_delim c = true) (take (strspn s) s).
Proof.
  induction s as [|c s IH]; simpl; [constructor|].
  destruct (is_delim c) eqn:Hd; simpl; [|constructor].
  destruct (c =? NUL)%char eqn:E; simpl; [constructor|].
  constructor; [|done]. split; [|done]. intros ->. by rewrite Ascii.eqb_refl in E.
Qed.

(** Leading delimiters hold no token. *)
Lemma tokens_strspn (s : list ascii) : tokens s = tokens (drop (strspn s) s).
Proof.
  unfold Mime.tokens. induction s as [|c s IH]; simpl; [done|].
  destruct (is_delim c) eqn:Hd; simpl.
  - destruct (c =? NUL)%char eqn:E; simpl; [by rewrite E|done].
  - by rewrite Hd.
Qed.

Lemma tokens_terminator (s : list ascii) : byte_at s 0 = NUL → tokens s = [].
Proof.
  destruct s as [|c s]; [done|]. rewrite byte_at_cons_0. intros ->. done.
Qed.

(** The run in progress grows up to the next delimiter or terminator. *)
Lemma tokens_from_strcspn (cur s : list ascii) :
  tokens_from cur s
  = flush (cur ++ take (strcspn s) s)
    ++ (if (byte_at s (strcspn s) =? NUL)%char then []
        else tokens (drop (S (strcspn s)) s)).
Proof.
  unfold Mime.tokens. revert cur. induction s as [|c s IH]; intros cur; simpl.
  - by rewrite !app_nil_r.
  - destruct (c =? NUL)%char eqn:E; simpl.
    + rewrite orb_true_r. simpl. rewrite byte_at_cons_0, E. by rewrite !app_nil_r.
    + rewrite orb_false_r. destruct (is_delim c) eqn:Hd; simpl.
      * rewrite byte_at_cons_0, E. by rewrite app_nil_r.
      * rewrite IH. rewrite byte_at_cons_S. by rewrite <-app_assoc.
Qed.

(** A line that starts on a token byte: its first token and the rest. *)
Lemma tokens_first (s : list ascii) :
  token_byte (byte_at s 0) →
  tokens s
  = take (strcspn s) s
    :: (if (byte_at s (strcspn s) =? NUL)%char then []
        else tokens (drop (S (strcspn s)) s)).
Proof.
  intros Hb. unfold Mime.tokens at 1. rewrite tokens_from_strcspn. simpl.
  pose proof (strcspn_pos s Hb) as Hpos.
  destruct (take (strcspn s) s) eqn:Ht; [|done].
  apply (f_equal length) in Ht. rewrite length_take in Ht. simpl in Ht.
  pose proof (strcspn_le s). pose proof (strlen_le s). lia.
Qed.

Lemma take_add_drop {A} (l : list A) (a b : nat) :
  take (a + b) l = take a l ++ take b (drop a l).
Proof.
  revert l. induction a as [|a IH]; intros l; [done|].
  destruct l as [|x l]; simpl; [by rewrite take_nil|]. by rewrite IH.
Qed.

(** A string is known by its bytes, none a terminator, and the terminator
    behind them: [l'] may differ from [l] from offset [n] on. *)
Lemma c_string_terminated (l l' : list ascii) (n : nat) :
  Forall (λ c, c ≠ NUL) (take n l) → byte_at l' n = NUL → take n l' = take n l →
  c_string l' = take n l.
Proof.
  intros Hall Hn Heq. rewrite <-Heq in *. clear Heq l.
  revert l' Hall Hn. induction n as [|n IH]; intros l Hall Hn.
  - destruct l as [|c l]; [done|]. rewrite byte_at_cons_0 in Hn. by subst.
  - destruct l as [|c l]; [done|]. simpl in *. inversion Hall; subst.
    destruct (c =? NUL)%char eqn:E; [by apply eqb_NUL in E|]. by rewrite IH.
Qed.

Lemma byte_at_insert_eq (buf : list ascii) (e : nat) (c : ascii) :
  byte_at buf e ≠ NUL → byte_at (<[e := c]> buf) e = c.
Proof.
  intros Hne. unfold byte_at. rewrite list_lookup_insert_eq; [done|].
  apply lookup_lt_is_Some. unfold byte_at in Hne.
  destruct (buf !! e); [done|]. by simpl in Hne.
Qed.

Lemma byte_at_lt (buf : list ascii) (e : nat) : byte_at buf e ≠ NUL → e < length buf.
Proof.
  intros Hne. destruct (decide (e < length buf)); [done|].
  rewrite byte_at_ge in Hne by lia. done.
Qed.

(** One call of [strtok] from offset [s0]: without a token left it returns
    [NULL] and leaves the buffer; otherwise it returns the first token of
    the text at [s0], terminated in place, and saves where the others
    start. *)
Lemma strtok_step (buf : list ascii) (str : option nat) (olds : nat) :
  let s0 := default olds str in
  let p := s0 + strspn (drop s0 buf) in
  let e := p + strcspn (drop p buf) in
  match strtok buf str olds with
  | (None, buf', _) => buf' = buf ∧ tokens (drop s0 buf) = []
  | (Some tok, buf', olds') =>
      tok = p ∧ p < e ∧ e ≤ olds' ≤ length buf
      ∧ tokens (drop s0 buf) = cstr_at buf' p :: tokens (drop olds' buf')
      ∧ c_string (drop s0 buf') = take (e - s0) (drop s0 buf)
      ∧ (buf' = buf ∨ buf' = <[e := NUL]> buf ∧ byte_at buf e ≠ NUL)
  end.
Proof.
  intros s0 p e. unfold Mime.strtok. fold s0. fold p. fold e.
  assert (tokens (drop s0 buf) = tokens (drop p buf)) as Hskip.
  { rewrite tokens_strspn, drop_drop. done. }
  destruct (byte_at buf p =? NUL)%char eqn:E.
  { apply eqb_NUL in E. split; [done|]. rewrite Hskip. apply tokens_terminator.
    by rewrite byte_at_drop, Nat.add_0_r. }
  assert (byte_at buf p ≠ NUL) as Hp by (intros Hp; rewrite Hp in E; done).
  assert (token_byte (byte_at (drop p buf) 0)) as Htb.
  { rewrite byte_at_drop, Nat.add_0_r.
    destruct (strspn_stop (drop s0 buf)) as [H|H]; rewrite byte_at_drop in H; [done|exact H]. }
  pose proof (strcspn_pos _ Htb) as Hpos.
  pose proof (strcspn_token_bytes (drop p buf)) as Htok.
  pose proof (strspn_delims (drop s0 buf)) as Hdel.
  pose proof (byte_at_lt _ _ Hp) as Hplt.
  assert (e ≤ length buf) as Hele.
  { pose proof (strcspn_le (drop p buf)). pose proof (strlen_le (drop p buf)).
    rewrite length_drop in *. lia. }
  assert (Forall (λ c, c ≠ NUL) (take (e - s0) (drop s0 buf))) as Hfield.
  { replace (e - s0) with (strspn (drop s0 buf) + strcspn (drop p buf)) by lia.
    rewrite take_add_drop. apply Forall_app. split.
    - eapply Forall_impl; [exact Hdel|]. by intros c [? _].
    - rewrite drop_drop. eapply Forall_impl; [exact Htok|]. by intros c [? _]. }
  rewrite Hskip, (tokens_first _ Htb), byte_at_drop. fold e.
  destruct (byte_at buf e =? NUL)%char eqn:E2.
  - apply eqb_NUL in E2. split; [done|]. split; [lia|]. split; [lia|].
    split; [|split; [|by left]].
    + f_equal.
      * unfold cstr_at. symmetry. apply c_string_terminated; [|by rewrite byte_at_drop|done].
        eapply Forall_impl; [exact Htok|]. by intros c [? _].
      * symmetry. apply tokens_terminator. by rewrite byte_at_drop, Nat.add_0_r.
    + apply c_string_terminated; [done| |done]. rewrite byte_at_drop.
      by replace (s0 + (e - s0)) with e by lia.
  - assert (byte_at buf e ≠ NUL) as He by (intros He; rewrite He in E2; done).
    pose proof (byte_at_lt _ _ He) as Helt.
    split; [done|]. split; [lia|]. split; [lia|].
    split; [|split; [|by right]].
    + f_equal.
      * unfold cstr_at. symmetry. apply c_string_terminated.
        -- eapply Forall_impl; [exact Htok|]. by intros c [? _].
        -- rewrite byte_at_drop. fold e. by apply byte_at_insert_eq.
        -- rewrite drop_insert_ge, take_insert_ge by lia. done.
      * rewrite drop_insert_lt by lia. by rewrite drop_drop, Nat.add_succ_r.
    + apply c_string_terminated.
      * done.
      * rewrite byte_at_drop. replace (s0 + (e - s0)) with e by lia.
        by apply byte_at_insert_eq.
      * by rewrite drop_insert_ge, take_insert_ge by lia.
Qed.

Lemma last_insert_NUL (buf : list ascii) (e : nat) :
  last buf = Some NUL → last (<[e := NUL]> buf) = Some NUL.
Proof.
  rewrite !last_lookup, length_insert. intros Hlast.
  destruct (decide (e = pred (length buf))) as [->|Hne].
  - apply list_lookup_insert_eq. by apply lookup_lt_Some in Hlast.
  - by rewrite list_lookup_insert_ne.
Qed.

Lemma token_loop_NULL (fuel : nat) (ext buf : list ascii) (olds : nat) :
  token_loop WHITESPACE fuel ext buf None olds = Done None.
Proof. by destruct fuel. Qed.

(** The inner loop from a token on: it returns on the first candidate
    among this token and those still in the text behind the saved
    pointer, with the string at the start of the buffer, which no later
    [strtok] call touches. *)
Lemma token_loop_spec (ext : list ascii) (fuel : nat) :
  ∀ (buf : list ascii) (tok olds : nat),
    last buf = Some NUL → tok < length buf →
    c_string buf ≠ [] → strlen buf ≤ olds → olds ≤ length buf →
    length buf < fuel + olds →
    token_loop WHITESPACE fuel ext buf (Some tok) olds
    = Done (if candidate ext (cstr_at buf tok) || line_matches WHITESPACE ext (drop olds buf)
            then Some (cut_trailing (c_string buf)) else None).
Proof.
  induction fuel as [|fuel IH]; intros buf tok olds Hlast Htok Hfield Hlen Holds Hfuel; [lia|].
  simpl. destruct (skip_whitespace_token buf tok Hlast Htok) as (q & Hq & Hstr).
  simpl in Hq. rewrite Hq, Hstr. fold (candidate ext (cstr_at buf tok)).
  destruct (candidate ext (cstr_at buf tok)) eqn:Hc; simpl.
  { by rewrite take_mimetype_field. }
  pose proof (strtok_step buf None olds) as Hstep. simpl in Hstep.
  destruct (strtok buf None olds) as [[[tok'|] buf'] olds'].
  - destruct Hstep as (-> & Hlt & Hbounds & Htoks & _ & Hbuf).
    assert (length buf' = length buf ∧ last buf' = Some NUL ∧ c_string buf' = c_string buf)
      as (Hlen' & Hlast' & Hsame).
    { destruct Hbuf as [->|[-> He]]; [done|].
      rewrite length_insert. split; [done|]. split; [by apply last_insert_NUL|].
      apply c_string_insert_behind; [lia|done]. }
    rewrite IH; try (rewrite ?Hlen'; unfold strlen in *; rewrite ?Hsame; done || lia).
    unfold line_matches at 2. rewrite Htoks. simpl. by rewrite Hsame.
  - destruct Hstep as [-> Htoks]. rewrite token_loop_NULL.
    unfold line_matches. by rewrite Htoks.
Qed.

(** One buffer: the first token that is a candidate decides, and the
    value is the leading field of the line without trailing blanks. *)
Lemma scan_line_spec (ext buffer : list ascii) :
  last buffer = Some NUL →
  scan_line WHITESPACE ext buffer
  = Done (if line_matches WHITESPACE ext buffer
          then Some (cut_trailing (leading_field WHITESPACE buffer)) else None).
Proof.
  intros Hlast. unfold scan_line.
  pose proof (strtok_step buffer (Some 0) 0) as Hstep. simpl in Hstep.
  destruct (strtok buffer (Some 0) 0) as [[[tok|] buf] olds].
  - rewrite !drop_0, Nat.sub_0_r in Hstep.
    destruct Hstep as (-> & Hlt & Hbounds & Htoks & Hfield & Hbuf).
    fold (leading_field WHITESPACE buffer) in Hfield.
    assert (length buf = length buffer ∧ last buf = Some NUL) as [Hlen Hlast'].
    { destruct Hbuf as [->|[-> He]]; [done|].
      rewrite length_insert. split; [done|]. by apply last_insert_NUL. }
    assert (strlen buf = strspn buffer + strcspn (drop (strspn buffer) buffer)) as Hstrlen.
    { unfold strlen. rewrite Hfield. unfold leading_field. rewrite length_take. lia. }
    rewrite token_loop_spec; [|done|lia| |lia|lia|lia].
    + unfold line_matches at 2. rewrite Htoks. simpl. by rewrite Hfield.
    + intros Hnil. unfold strlen in Hstrlen. rewrite Hnil in Hstrlen. simpl in Hstrlen. lia.
  - rewrite drop_0 in Hstep. destruct Hstep as [-> Htoks]. rewrite token_loop_NULL.
    unfold line_matches. by rewrite Htoks.
Qed.

Lemma find_none {A} (f : A → bool) (l : list A) :
  Forall (λ x, f x = false) l → find f l = None.
Proof. induction 1 as [|x l Hx _ IH]; simpl; [done|]. by rewrite Hx. Qed.

Lemma cut_trailing_nonempty (field : list ascii) : field ≠ [] → cut_trailing field ≠ [].
Proof. unfold cut_trailing. by destruct field. Qed.

(** The leading field is the first token behind the delimiters the line
    starts with; on a line that starts with its type name it is that name. *)
Lemma leading_field_first_token (line t : list ascii) (ts : list (list ascii)) :
  tokens line = t :: ts →
  leading_field WHITESPACE line = take (strspn line) line ++ t ∧ t ≠ [].
Proof.
  intros Htoks. rewrite tokens_strspn in Htoks.
  destruct (strspn_stop line) as [Hnul|Htb].
  { rewrite tokens_terminator in Htoks; [done|]. by rewrite byte_at_drop, Nat.add_0_r. }
  assert (token_byte (byte_at (drop (strspn line) line) 0)) as Htb'.
  { by rewrite byte_at_drop, Nat.add_0_r. }
  rewrite (tokens_first _ Htb') in Htoks. injection Htoks as <- _.
  unfold leading_field. split; [apply take_add_drop|].
  pose proof (strcspn_pos _ Htb') as Hpos.
  pose proof (strcspn_le (drop (strspn line) line)).
  pose proof (strlen_le (drop (strspn line) line)).
  intros Hnil. apply (f_equal length) in Hnil. rewrite length_take in Hnil. simpl in Hnil. lia.
Qed.

Lemma line_matches_field (ext line : list ascii) :
  line_matches WHITESPACE ext line = true → leading_field WHITESPACE line ≠ [].
Proof.
  unfold line_matches. destruct (tokens line) as [|t ts] eqn:Htoks; [done|].
  intros _. apply leading_field_first_token in Htoks as [-> Hne].
  intros [_ ?]%app_eq_nil. done.
Qed.

Lemma first_match_nonempty (ext m : list ascii) (lines : list (list ascii)) :
  first_match WHITESPACE ext lines = Some m → m ≠ [].
Proof.
  unfold Mime.first_match. destruct (find _ lines) as [line|] eqn:Hfind; [|done].
  intros [= <-]. apply find_some in Hfind as [_ Hm].
  apply cut_trailing_nonempty. by eapply line_matches_field.
Qed.

(** Tokens are not empty and hold token bytes only. *)
Lemma tokens_from_bytes (cur line : list ascii) :
  Forall token_byte cur →
  Forall (λ t, t ≠ [] ∧ Forall token_byte t) (tokens_from cur line).
Proof.
  assert (∀ cur, Forall token_byte cur →
                 Forall (λ t, t ≠ [] ∧ Forall token_byte t) (flush cur)) as Hflush.
  { intros [|c cur'] H; simpl; [apply Forall_nil_2|].
    apply Forall_cons. split; [done|apply Forall_nil_2]. }
  revert cur. induction line as [|c line IH]; intros cur Hcur; simpl; [by apply Hflush|].
  destruct (c =? NUL)%char eqn:E; [by apply Hflush|].
  destruct (is_delim c) eqn:Hd.
  - apply Forall_app. split; [by apply Hflush|]. apply IH. constructor.
  - apply IH. apply Forall_app. split; [done|]. repeat constructor; [|done].
    intros ->. by rewrite Ascii.eqb_refl in E.
Qed.

Lemma tokens_bytes (line : list ascii) :
  Forall (λ t, t ≠ [] ∧ Forall token_byte t) (tokens line).
Proof. apply tokens_from_bytes. constructor. Qed.

Lemma skip_blanks_id (t : list ascii) : isspace (byte_at t 0) = false → skip_blanks t = t.
Proof. destruct t as [|c t]; [done|]. rewrite byte_at_cons_0. simpl. by intros ->. Qed.

(** On tokens without blank bytes the test of lines 65-66 is equality. *)
Lemma candidate_exact (ext t : list ascii) :
  NUL ∉ ext → Forall token_byte t → Forall (λ c, isspace c = false) t →
  candidate ext t = bool_decide (t = ext).
Proof.
  intros Hext Htok Hblank. unfold candidate. rewrite skip_blanks_id.
  2:{ destruct Hblank; [done|]. by rewrite byte_at_cons_0. }
  assert (NUL ∉ t) as Ht.
  { intros Hin. rewrite Forall_forall in Htok. by destruct (Htok _ Hin). }
  destruct (streq t ext) eqn:E.
  - apply streq_exact in E; [|done..]. by rewrite bool_decide_eq_true_2.
  - rewrite bool_decide_eq_false_2; [done|]. intros ->.
    assert (streq ext ext = true) by by apply streq_exact. congruence.
Qed.

Lemma cut_trailing_id (field : list ascii) :
  Forall (λ c, isspace c = false) field → cut_trailing field = field.
Proof.
  intros Hall. unfold cut_trailing. destruct (length field - 1) as [|n] eqn:Hn; simpl.
  - apply take_ge. lia.
  - assert (isspace (byte_at field (S n)) = false) as ->.
    { unfold byte_at. destruct (field !! S n) as [c|] eqn:Hc; [|done]. simpl.
      rewrite Forall_lookup in Hall. eauto. }
    apply take_ge. lia.
Qed.

Lemma plain_rule_agrees (ext line : list ascii) :
  NUL ∉ ext → plain_rule WHITESPACE ext line →
  line_matches WHITESPACE ext line = spec_line_matches WHITESPACE ext line
  ∧ (line_matches WHITESPACE ext line = true →
     cut_trailing (leading_field WHITESPACE line) = default [] (head (tokens line))).
Proof.
  intros Hext (Hstart & Hblank & Hfirst).
  pose proof (tokens_bytes line) as Hbytes.
  unfold line_matches, spec_line_matches.
  assert (∀ ts, Forall (λ t, t ≠ [] ∧ Forall token_byte t) ts →
                Forall (Forall (λ c, isspace c = false)) ts →
                existsb (candidate ext) ts = existsb (λ t, bool_decide (t = ext)) ts) as Hex.
  { induction ts as [|t ts IH]; intros Hb Hs; [done|].
    inversion Hb as [|?? [_ Ht] Hb']; inversion Hs; subst. simpl.
    rewrite candidate_exact by done. by rewrite IH. }
  rewrite Hex by done.
  destruct (tokens line) as [|t ts] eqn:Htoks; [done|]. simpl in *.
  rewrite bool_decide_eq_false_2 by congruence. split; [done|]. intros _.
  destruct Hstart as [?|Hstart]; [done|].
  apply leading_field_first_token in Htoks as [-> _].
  assert (strspn line = 0) as ->.
  { destruct line as [|c line]; [done|]. rewrite byte_at_cons_0 in Hstart.
    simpl. by rewrite Hstart. }
  rewrite take_0. simpl. apply cut_trailing_id. by inversion Hblank.
Qed.

(** On plain rules the scan comes to the value the spec describes. *)
Lemma first_match_agrees (ext : list ascii) (lines : list (list ascii)) :
  NUL ∉ ext → Forall (plain_rule WHITESPACE ext) lines →
  first_match WHITESPACE ext lines = spec_first_match WHITESPACE ext lines.
Proof.
  intros Hext. unfold first_match, spec_first_match.
  induction 1 as [|line lines Hline _ IH]; [done|]. simpl.
  destruct (plain_rule_agrees ext line Hext Hline) as [<- Hval].
  destruct (line_matches WHITESPACE ext line); [|done]. simpl. by rewrite Hval.
Qed.

End Tokens.

(** [fgets] hands over a terminated buffer and, when the buffer has room
    for a byte, takes at least one byte off the stream. *)
Lemma read_line_app (n : nat) (stream : list ascii) :
  (read_line n stream).1 ++ (read_line n stream).2 = stream.
Proof.
  revert stream. induction n as [|n IH]; intros [|c stream]; simpl; try done.
  destruct (c =? newline)%char; [done|].
  specialize (IH stream). destruct (read_line n stream) as [line rest]. simpl in *.
  by rewrite IH.
Qed.

Lemma read_line_progress (n : nat) (stream : list ascii) :
  0 < n → stream ≠ [] → (read_line n stream).1 ≠ [].
Proof.
  intros Hn Hs. destruct n as [|n]; [lia|]. destruct stream as [|c stream]; [done|].
  simpl. destruct (c =? newline)%char; [done|]. by destruct (read_line n stream).
Qed.

Lemma fgets_Some (size : nat) (stream buffer rest : list ascii) :
  fgets size stream = Some (buffer, rest) →
  last buffer = Some NUL ∧ (2 ≤ size → length rest < length stream).
Proof.
  unfold fgets. destruct size as [|n]; [done|]. destruct stream as [|c stream]; [done|].
  pose proof (read_line_app n (c :: stream)) as Happ.
  pose proof (read_line_progress n (c :: stream)) as Hprog.
  destruct (read_line n (c :: stream)) as [line rest'] eqn:Hr. simpl in *.
  intros [= <- <-]. split; [apply last_snoc|].
  intros Hsize. apply (f_equal length) in Happ. rewrite length_app in Happ. simpl in Happ.
  assert (line ≠ []) as Hne by (apply Hprog; [lia|done]).
  destruct line; [done|]. simpl in Happ. lia.
Qed.

Section File.
Variable BUFSIZ : nat.
Variable WHITESPACE : list ascii.
Variable MimeTypesPath DefaultMimeType : list ascii.
Hypothesis BUFSIZ_room : 2 ≤ BUFSIZ.

Local Abbreviation scan_file := (scan_file BUFSIZ WHITESPACE).
Local Abbreviation rule_lines := (rule_lines BUFSIZ).
Local Abbreviation first_match := (first_match WHITESPACE).
Local Abbreviation determine_mimetype :=
  (determine_mimetype BUFSIZ WHITESPACE MimeTypesPath DefaultMimeType).

(** The outer loop with fuel for every byte of the stream: the first
    buffer that holds a candidate decides. *)
Lemma scan_file_spec (ext : list ascii) (fuel : nat) :
  ∀ stream, length stream < fuel →
    (scan_file fuel ext stream).2 = Done (first_match ext (rule_lines fuel stream)).
Proof.
  induction fuel as [|fuel IH]; intros stream Hfuel; [lia|].
  simpl. destruct (fgets BUFSIZ stream) as [[buffer rest]|] eqn:Hget; [|done].
  apply fgets_Some in Hget as [Hlast Hless].
  rewrite (scan_line_spec WHITESPACE ext buffer Hlast).
  unfold Mime.first_match. simpl.
  destruct (line_matches WHITESPACE ext buffer) eqn:Hm; [done|].
  specialize (IH rest). destruct (Mime.scan_file BUFSIZ WHITESPACE fuel ext rest) as [log r].
  simpl in *. apply IH. lia.
Qed.

Lemma strrchr_None (s : list ascii) (c : ascii) : strrchr s c = None ↔ c ∉ s.
Proof.
  induction s as [|x s IH]; simpl.
  - split; [intros _; apply not_elem_of_nil|done].
  - rewrite not_elem_of_cons. destruct (strrchr s c) as [i|].
    + split; [done|]. intros [_ H]. by apply IH in H.
    + destruct (x =? c)%char eqn:E.
      * apply Ascii.eqb_eq in E as ->. split; [done|]. by intros [? _].
      * split; [|done]. intros _. split; [|by apply IH].
        intros ->. by rewrite Ascii.eqb_refl in E.
Qed.

(** [determine_mimetype] in one equation. *)
Lemma determine_mimetype_spec fopen (path : list ascii) :
  (determine_mimetype fopen (Some path)).2
  = Done (match strrchr path "." with
          | None => Borrowed DefaultMimeType
          | Some temp =>
              match fopen MimeTypesPath with
              | None => Borrowed DefaultMimeType
              | Some fs =>
                  to_mimetype DefaultMimeType
                    (first_match (drop (S temp) path) (file_lines BUFSIZ fs))
              end
          end).
Proof.
  unfold Mime.determine_mimetype. destruct (strrchr path ".") as [temp|]; [|done].
  destruct (fopen MimeTypesPath) as [fs|]; [|done].
  pose proof (scan_file_spec (drop (S temp) path) (S (length fs)) fs) as Hscan.
  destruct (Mime.scan_file BUFSIZ WHITESPACE (S (length fs)) (drop (S temp) path) fs) as [log r].
  simpl in *. rewrite Hscan by lia. done.
Qed.

(** Without a dot in the path, or without a path, nothing is opened. *)
Lemma determine_mimetype_no_dot fopen (path : option (list ascii)) :
  (∀ p, path = Some p → "." ∉ p) →
  determine_mimetype fopen path = ([], Done (Borrowed DefaultMimeType)).
Proof.
  intros Hdot. destruct path as [p|]; [|done]. simpl.
  by rewrite (proj2 (strrchr_None p ".") (Hdot p eq_refl)).
Qed.

(** On plain rules [determine_mimetype] returns what the spec describes:
    the type name of the first line that lists the extension. *)
Lemma determine_mimetype_plain_rules fopen (path fs : list ascii) (temp : nat) :
  NUL ∉ path → strrchr path "." = Some temp → fopen MimeTypesPath = Some fs →
  Forall (plain_rule WHITESPACE (drop (S temp) path)) (file_lines BUFSIZ fs) →
  (determine_mimetype fopen (Some path)).2
  = Done (to_mimetype DefaultMimeType
            (spec_first_match WHITESPACE (drop (S temp) path) (file_lines BUFSIZ fs))).
Proof.
  intros Hpath Hdot Hopen Hplain. rewrite determine_mimetype_spec, Hdot, Hopen.
  rewrite first_match_agrees; [done| |done].
  intros Hin. apply Hpath. rewrite <-(take_drop (S temp) path).
  apply elem_of_app. by right.
Qed.

End File.

(** Lines shorter than the buffer come out of [fgets] one per call. *)
Lemma read_line_newline (n : nat) (l rest : list ascii) :
  newline ∉ l → length l < n →
  read_line n (l ++ newline :: rest) = (l ++ [newline], rest).
Proof.
  revert n. induction l as [|c l IH]; intros n Hnl Hn; (destruct n as [|n]; [simpl in Hn; lia|]).
  - done.
  - apply not_elem_of_cons in Hnl as [Hc Hl]. simpl.
    destruct (c =? newline)%char eqn:E; [apply Ascii.eqb_eq in E; congruence|].
    rewrite IH; [done|done|simpl in Hn; lia].
Qed.

Lemma fgets_line (size : nat) (l rest : list ascii) :
  newline ∉ l → length l + 1 < size →
  fgets size (l ++ newline :: rest) = Some (l ++ [newline; NUL], rest).
Proof.
  intros Hnl Hsize. unfold fgets. destruct size as [|n]; [lia|].
  rewrite read_line_newline by (done || lia). rewrite <-app_assoc. simpl.
  by destruct l.
Qed.

Lemma rule_lines_join (BUFSIZ : nat) (lines : list (list ascii)) :
  Forall (λ l, (newline ∉ l) ∧ length l + 1 < BUFSIZ) lines →
  ∀ fuel, length lines < fuel →
    rule_lines BUFSIZ fuel (join_lines lines) = map (λ l, l ++ [newline; NUL]) lines.
Proof.
  induction 1 as [|l lines [Hnl Hlen] _ IH]; intros fuel Hfuel.
  - destruct fuel as [|fuel]; [done|]. simpl. by destruct BUFSIZ.
  - destruct fuel as [|fuel]; [simpl in Hfuel; lia|].
    unfold join_lines. simpl. rewrite <-app_assoc. simpl. rewrite fgets_line by done.
    f_equal. apply IH. simpl in Hfuel. lia.
Qed.

Lemma file_lines_join (BUFSIZ : nat) (lines : list (list ascii)) :
  Forall (λ l, (newline ∉ l) ∧ length l + 1 < BUFSIZ) lines →
  file_lines BUFSIZ (join_lines lines) = map (λ l, l ++ [newline; NUL]) lines.
Proof.
  intros Hall. apply rule_lines_join; [done|].
  assert (length lines ≤ length (join_lines lines)); [|lia].
  clear Hall. unfold join_lines. induction lines as [|l lines IH]; simpl; [done|].
  rewrite !length_app. simpl. lia.
Qed.

Example tokens_of_rule :
  tokens WHITESPACE_example (bytes "text/html  htm html" ++ [newline; NUL])
  = [bytes "text/html"; bytes "htm"; bytes "html"].
Proof. reflexivity. Qed.

Example leading_field_of_rule :
  leading_field WHITESPACE_example (bytes "text/html  htm html" ++ [newline; NUL])
  = bytes "text/html".
Proof. reflexivity. Qed.

(** X21: [determine_mimetype] returns on every path and every state of
    the rules file, with [DefaultMimeType] or with a fresh non-empty
    string, never a fault; and it is [DefaultMimeType] without a path,
    without a dot anywhere in the path, when the rules file cannot be
    opened, and when no buffer of the file holds a token the scan takes
    for the bytes behind the last dot. [BUFSIZ] leaves room for a byte
    beside the terminator. *)
Theorem determine_mimetype_total BUFSIZ WHITESPACE MimeTypesPath DefaultMimeType
    (fopen : list ascii → option (list ascii)) (path : option (list ascii)) :
  2 ≤ BUFSIZ →
  let result :=
    (determine_mimetype BUFSIZ WHITESPACE MimeTypesPath DefaultMimeType fopen path).2 in
  (result = Done (Borrowed DefaultMimeType) ∨ ∃ m, result = Done (Owned m) ∧ m ≠ [])
  ∧ (path = None → result = Done (Borrowed DefaultMimeType))
  ∧ (∀ p, path = Some p → "."%char ∉ p → result = Done (Borrowed DefaultMimeType))
  ∧ (fopen MimeTypesPath = None → result = Done (Borrowed DefaultMimeType))
  ∧ (∀ p temp fs,
       path = Some p → strrchr p "." = Some temp → fopen MimeTypesPath = Some fs →
       Forall (λ line, line_matches WHITESPACE (drop (S temp) p) line = false)
              (file_lines BUFSIZ fs) →
       result = Done (Borrowed DefaultMimeType)).
Proof.
  intros Hroom result. subst result.
  destruct path as [p|]; [|by repeat split; try done; left].
  rewrite determine_mimetype_spec by done. repeat split.
  - destruct (strrchr p ".") as [temp|]; [|by left].
    destruct (fopen MimeTypesPath) as [fs|]; [|by left].
    destruct (first_match WHITESPACE _ _) as [m|] eqn:Hm; [|by left].
    right. exists m. split; [done|]. by eapply first_match_nonempty.
  - done.
  - intros p' [= <-] Hdot. by rewrite (proj2 (strrchr_None p ".") Hdot).
  - intros ->. by destruct (strrchr p ".").
  - intros p' temp fs [= <-] -> -> Hnone. unfold first_match.
    by rewrite find_none.
Qed.

Lemma determine_mimetype_total_witness :
  (example_mimetype ["text/html  htm html"; "image/png png"]%string "/srv/www/a.tar").2
  = Done (Borrowed (bytes "text/plain")).
Proof.
  assert (2 ≤ BUFSIZ_glibc) as Hroom by (vm_compute; lia).
  destruct (determine_mimetype_total BUFSIZ_glibc WHITESPACE_example (bytes "/etc/mime.types")
              (bytes "text/plain")
              (rules_file ["text/html  htm html"; "image/png png"]%string)
              (Some (bytes "/srv/www/a.tar")) Hroom) as (_ & _ & _ & _ & Hmiss).
  apply (Hmiss (bytes "/srv/www/a.tar") 10
           (text ["text/html  htm html"; "image/png png"]%string)); try reflexivity.
  by apply (bool_decide_unpack _).
Defined.

(** C6: the call always returns a value, but two of the failure modes do
    not come to the default. The file html in the directory v1.text has
    no extension, and the value is text/html; no rule lists foo as an
    extension in the rules [foo bar], and the value for x.foo is foo.
    A missing path and a rules file that cannot be opened do give the
    default. *)
Theorem determine_mimetype_failure_modes :
  ("."%char ∉ final_segment (bytes "/srv/www/v1.text/html"))
  ∧ (example_mimetype ["text/html html htm"]%string "/srv/www/v1.text/html").2
    = Done (Owned (bytes "text/html"))
  ∧ spec_first_match WHITESPACE_example (bytes "foo")
      (file_lines BUFSIZ_glibc (text ["foo bar"]%string))
    = None
  ∧ (example_mimetype ["foo bar"]%string "x.foo").2 = Done (Owned (bytes "foo"))
  ∧ (determine_mimetype BUFSIZ_glibc WHITESPACE_example (bytes "/etc/mime.types")
       (bytes "text/plain") (rules_file ["foo bar"]%string) None).2
    = Done (Borrowed (bytes "text/plain"))
  ∧ (determine_mimetype BUFSIZ_glibc WHITESPACE_example (bytes "/etc/mime.types")
       (bytes "text/plain") (λ _, None) (Some (bytes "x.foo"))).2
    = Done (Borrowed (bytes "text/plain")).
Proof.
  repeat split; try (by vm_compute); by apply (bool_decide_unpack _).
Qed.

(** C5: the first token of a line is compared with the extension like
    the others. The spec's own example comes out as text/html; but with
    the rules [foo bar] and [baz foo] and the path x.foo the scan stops
    on the first line, whose first token is foo, and returns foo, where
    the only line with foo among the tokens after the first is the second
    and gives baz. A line that starts with blanks keeps them in the
    value. *)
Theorem determine_mimetype_tests_first_token :
  (example_mimetype ["text/html  htm html"]%string "index.html").2
  = Done (Owned (bytes "text/html"))
  ∧ example_mimetype ["foo bar"; "baz foo"]%string "x.foo"
    = ([IO_fopen (bytes "/etc/mime.types"); IO_fgets], Done (Owned (bytes "foo")))
  ∧ spec_first_match WHITESPACE_example (bytes "foo")
      (file_lines BUFSIZ_glibc (text ["foo bar"; "baz foo"]%string))
    = Some (bytes "baz")
  ∧ (example_mimetype ["  text/html  htm html"]%string "index.html").2
    = Done (Owned (bytes "  text/html")).
Proof. repeat split; by vm_compute. Qed.

(** C7: a dot in a directory name is taken for the start of an
    extension. The final segment of /srv/www.d/README has no dot, yet the
    rules file is opened and read to its end; and for the file html in
    the directory v1.text the value is not the default. *)
Theorem determine_mimetype_dot_in_directory :
("."%char ∉ final_segment (bytes "/srv/www.d/README"))
  ∧ example_mimetype ["text/html html htm"]%string "/srv/www.d/README"
    = ([IO_fopen (bytes "/etc/mime.types"); IO_fgets; IO_fgets],
       Done (Borrowed (bytes "text/plain")))
  ∧ ("."%char ∉ final_segment (bytes "/srv/www/v1.text/html"))
  ∧ example_mimetype ["text/html html htm"]%string "/srv/www/v1.text/html"
    = ([IO_fopen (bytes "/etc/mime.types"); IO_fgets], Done (Owned (bytes "text/html"))).
Proof.
  repeat split; try (by vm_compute); by apply (bool_decide_unpack _).
Qed.

End MimeFacts.

(** * Further properties *)

(** ** More on the text-scan primitives *)

Module ScanMore.
Import Scan ScanFacts.

(** X1: on a terminated string [skip_whitespace] returns a cursor inside
    the string, on its first byte that is not whitespace; every byte it
    passed is whitespace. *)
Theorem skip_whitespace_stops_in_string (mem : list ascii) (p : nat) :
  NUL ∈ drop p mem →
  ∃ q, skip_whitespace mem (Some p) = Done (Some q)
       ∧ p ≤ q ≤ p + strlen (drop p mem)
       ∧ (∀ i, p ≤ i < q → isspace (byte_at mem i) = true)
       ∧ isspace (byte_at mem q) = false.
Proof. apply skip_whitespace_total. Qed.

Lemma skip_whitespace_stops_in_string_witness :
  ∃ q, skip_whitespace (bytes "  abc" ++ [NUL]) (Some 0) = Done (Some q)
       ∧ 0 ≤ q ≤ 0 + strlen (drop 0 (bytes "  abc" ++ [NUL]))
       ∧ (∀ i, 0 ≤ i < q → isspace (byte_at (bytes "  abc" ++ [NUL]) i) = true)
       ∧ isspace (byte_at (bytes "  abc" ++ [NUL]) q) = false.
Proof.
  apply (skip_whitespace_stops_in_string (bytes "  abc" ++ [NUL]) 0).
  by apply (bool_decide_unpack _).
Defined.

Lemma skip_nonwhitespace_loop_first (rest : list ascii) (s k : nat) :
  isspace (byte_at rest k) = true →
  ∃ n, skip_nonwhitespace_loop rest s = Done (s + n) ∧ n ≤ k
       ∧ isspace (byte_at rest n) = true
       ∧ Forall (λ c, isspace c = false) (take n rest).
Proof.
  revert s k. induction rest as [|c rest IH]; intros s k Hk.
  - by destruct k.
  - simpl. destruct (isspace c) eqn:Hc; simpl.
    + exists 0. rewrite Nat.add_0_r. repeat split; [lia|done|constructor].
    + destruct k as [|k]; [rewrite byte_at_cons_0 in Hk; congruence|].
      rewrite byte_at_cons_S in Hk.
      destruct (IH (S s) k Hk) as (n & Hrun & Hle & Hsp & Hall).
      exists (S n). rewrite Hrun. split; [f_equal; lia|]. split; [lia|].
      split; [done|]. simpl. by constructor.
Qed.

(** X2: with a whitespace byte at or behind the cursor,
    [skip_nonwhitespace] returns the offset of the first one. *)
Theorem skip_nonwhitespace_first_whitespace (mem : list ascii) (p k : nat) :
  isspace (byte_at mem (p + k)) = true →
  ∃ q, skip_nonwhitespace mem (Some p) = Done (Some q)
       ∧ p ≤ q ≤ p + k
       ∧ isspace (byte_at mem q) = true
       ∧ (∀ i, p ≤ i < q → isspace (byte_at mem i) = false).
Proof.
  intros Hk. rewrite <-byte_at_drop in Hk.
  destruct (skip_nonwhitespace_loop_first _ p k Hk) as (n & Hrun & Hle & Hsp & Hall).
  exists (p + n). simpl. rewrite Hrun. split; [done|]. split; [lia|].
  split; [by rewrite <-byte_at_drop|].
  intros i Hi. replace i with (p + (i - p)) by lia. rewrite <-byte_at_drop.
  rewrite Forall_lookup in Hall. unfold byte_at.
  destruct (drop p mem !! (i - p)) as [c|] eqn:Hl; [|done]. simpl.
  apply (Hall (i - p)). rewrite lookup_take_lt by lia. done.
Qed.

Lemma skip_nonwhitespace_first_whitespace_witness :
  ∃ q, skip_nonwhitespace (bytes "text/html  htm" ++ [NUL]) (Some 0) = Done (Some q)
       ∧ 0 ≤ q ≤ 0 + 10
       ∧ isspace (byte_at (bytes "text/html  htm" ++ [NUL]) q) = true
       ∧ (∀ i, 0 ≤ i < q → isspace (byte_at (bytes "text/html  htm" ++ [NUL]) i) = false).
Proof.
  apply (skip_nonwhitespace_first_whitespace (bytes "text/html  htm" ++ [NUL]) 0 10).
  reflexivity.
Defined.

Lemma skip_nonwhitespace_loop_cases (rest : list ascii) (s : nat) :
  skip_nonwhitespace_loop rest s = Fault
  ∨ ∃ q, skip_nonwhitespace_loop rest s = Done q.
Proof.
  revert s. induction rest as [|c rest IH]; intros s; simpl; [by left|].
  destruct (isspace c); simpl; [right; by eexists|apply IH].
Qed.

(** X3: [skip_nonwhitespace] never stops on the terminator. On a string
    without a whitespace byte it reads beyond the string: it faults at
    the end of the array, or returns a cursor behind the terminator; and
    it faults whenever no byte of the array from the cursor on is
    whitespace. *)
Theorem skip_nonwhitespace_runs_off_string (mem : list ascii) (p : nat) :
  Forall (λ c, isspace c = false) (cstr_at mem p) →
  (skip_nonwhitespace mem (Some p) = Fault
   ∨ ∃ q, skip_nonwhitespace mem (Some p) = Done (Some q)
          ∧ p + strlen (drop p mem) < q)
  ∧ (Forall (λ c, isspace c = false) (drop p mem) →
     skip_nonwhitespace mem (Some p) = Fault).
Proof.
  intros Hall. split.
  - destruct (skip_nonwhitespace_loop_cases (drop p mem) p) as [Hf|[q Hq]].
    + left. simpl. by rewrite Hf.
    + right. exists q. assert (skip_nonwhitespace mem (Some p) = Done (Some q)) as Hret.
      { simpl. by rewrite Hq. }
      split; [done|]. by eapply skip_nonwhitespace_leaves_string.
  - intros Hrest. simpl. by rewrite skip_nonwhitespace_loop_overrun.
Qed.

Lemma skip_nonwhitespace_runs_off_string_witness :
  skip_nonwhitespace (bytes "index.html" ++ [NUL]) (Some 0) = Fault.
Proof.
  assert (Forall (λ c, isspace c = false) (cstr_at (bytes "index.html" ++ [NUL]) 0)) as Hstr.
  { by apply (bool_decide_unpack _). }
  destruct (skip_nonwhitespace_runs_off_string _ 0 Hstr) as [_ Hfault].
  apply Hfault. by apply (bool_decide_unpack _).
Defined.

Lemma skip_whitespace_loop_stop (rest : list ascii) (s q : nat) :
  skip_whitespace_loop rest s = Done q →
  s ≤ q ∧ q - s < length rest ∧ isspace (byte_at rest (q - s)) = false.
Proof.
  revert s. induction rest as [|c rest IH]; intros s; simpl; [done|].
  destruct (isspace c) eqn:Hc.
  - intros H. apply IH in H as (Hle & Hlt & Hsp).
    replace (q - s) with (S (q - S s)) by lia. simpl. repeat split; [lia|lia|done].
  - intros [= <-]. rewrite Nat.sub_diag. repeat split; [lia|simpl; lia|done].
Qed.

Lemma skip_nonwhitespace_loop_in_array (rest : list ascii) (s q : nat) :
  skip_nonwhitespace_loop rest s = Done q → q - s < length rest.
Proof.
  revert s. induction rest as [|c rest IH]; intros s; simpl; [done|].
  destruct (isspace c) eqn:Hc; simpl.
  - intros [= <-]. lia.
  - intros H. pose proof (skip_nonwhitespace_loop_stop _ _ _ H) as [Hle _].
    apply IH in H. lia.
Qed.

(** X4: both helpers are idempotent: applied to a cursor one of them
    returned, the same helper returns that cursor unchanged. *)
Theorem skip_helpers_idempotent (mem : list ascii) (p q : nat) :
  (skip_whitespace mem (Some p) = Done (Some q) →
   skip_whitespace mem (Some q) = Done (Some q))
  ∧ (skip_nonwhitespace mem (Some p) = Done (Some q) →
     skip_nonwhitespace mem (Some q) = Done (Some q)).
Proof.
  split; intros Hret; simpl in Hret.
  - destruct (skip_whitespace_loop (drop p mem) p) as [q'| |] eqn:Hloop; try done.
    injection Hret as ->. apply skip_whitespace_loop_stop in Hloop as (Hle & Hlt & Hsp).
    rewrite byte_at_drop in Hsp. replace (p + (q - p)) with q in Hsp by lia.
    rewrite length_drop in Hlt. apply skip_whitespace_unchanged; [lia|done].
  - destruct (skip_nonwhitespace_loop (drop p mem) p) as [q'| |] eqn:Hloop; try done.
    injection Hret as ->.
    pose proof (skip_nonwhitespace_loop_in_array _ _ _ Hloop) as Hlt.
    apply skip_nonwhitespace_loop_stop in Hloop as (Hle & Hsp & _).
    rewrite byte_at_drop in Hsp. replace (p + (q - p)) with q in Hsp by lia.
    rewrite length_drop in Hlt. simpl.
    destruct (drop q mem) as [|c rest] eqn:Hd.
    { apply (f_equal length) in Hd. rewrite length_drop in Hd. simpl in Hd. lia. }
    assert (byte_at mem q = c) as Hc.
    { rewrite <-(Nat.add_0_r q), <-byte_at_drop, Hd. done. }
    simpl. rewrite <-Hc, Hsp. done.
Qed.

Lemma skip_helpers_idempotent_witness :
  skip_whitespace (bytes "  abc" ++ [NUL]) (Some 2) = Done (Some 2)
  ∧ skip_nonwhitespace (bytes "text/html  htm" ++ [NUL]) (Some 9) = Done (Some 9).
Proof.
  split.
  - by apply (proj1 (skip_helpers_idempotent (bytes "  abc" ++ [NUL]) 0 2)).
  - by apply (proj2 (skip_helpers_idempotent (bytes "text/html  htm" ++ [NUL]) 0 9)).
Defined.

End ScanMore.

(** ** More on the status phrases *)

Module StatusMore.
Import Status.

(** X5: two different status codes never share a phrase: if one of them
    has a phrase, the other has a different one or none, however the
    enumerators are numbered. *)
Theorem http_status_string_injective (OK BAD_REQUEST NOT_FOUND INTERNAL_SERVER_ERROR a b : Z) :
  a ≠ b →
  http_status_string OK BAD_REQUEST NOT_FOUND INTERNAL_SERVER_ERROR a ≠ None →
  http_status_string OK BAD_REQUEST NOT_FOUND INTERNAL_SERVER_ERROR a
  ≠ http_status_string OK BAD_REQUEST NOT_FOUND INTERNAL_SERVER_ERROR b.
Proof.
  unfold http_status_string. simpl.
  repeat (case Z.eqb_spec; intros ?); subst; intros ? ?; congruence.
Qed.

Lemma http_status_string_injective_witness :
  http_status_string 0 1 2 3 0 ≠ http_status_string 0 1 2 3 2.
Proof. apply http_status_string_injective; [lia|discriminate]. Defined.

End StatusMore.

(** ** More on request paths *)

Module RequestMore.
Import Request RequestFacts.

(** X7: on a file system where canonical paths canonicalize to
    themselves, a returned path is [RootPath] followed by a URI that
    resolves to the same path again. *)
Theorem determine_request_path_round_trip BUFSIZ RootPath realpath (uri p : list ascii) :
  NUL ∉ RootPath →
  (∀ a b, realpath a = Some b → realpath b = Some b) →
  length p < BUFSIZ →
  determine_request_path BUFSIZ RootPath realpath uri = Done (Some p) →
  ∃ rest, p = RootPath ++ rest
          ∧ determine_request_path BUFSIZ RootPath realpath rest = Done (Some p).
Proof.
  intros Hwf Hidem Hlen Hret.
  apply resolve_Some in Hret as (_ & Hreal & [rest ->]); [|done].
  exists rest. split; [done|].
  rewrite resolve_fits; [|done|done].
  rewrite (Hidem _ _ Hreal). rewrite bool_decide_eq_true_2; [done|by exists rest].
Qed.

Lemma determine_request_path_round_trip_witness :
  ∃ rest, bytes "/srv/www/index.html" = bytes "/srv/www" ++ rest
          ∧ determine_request_path 64 (bytes "/srv/www")
              (fs_table [(bytes "/srv/www/a/../index.html", bytes "/srv/www/index.html");
                         (bytes "/srv/www/index.html", bytes "/srv/www/index.html")])
              rest
            = Done (Some (bytes "/srv/www/index.html")).
Proof.
  apply (determine_request_path_round_trip 64 (bytes "/srv/www") _ (bytes "/a/../index.html")).
  - by apply (bool_decide_unpack _).
  - intros a b. unfold fs_table. simpl.
    repeat case_bool_decide; simpl; intros [= <-]; try done;
      repeat case_bool_decide; done.
  - vm_compute; lia.
  - reflexivity.
Defined.

(** X8: with a root that does not start with a separator, on a file
    system whose canonical paths are absolute, no request is ever
    answered with a path. *)
Theorem determine_request_path_relative_root BUFSIZ RootPath realpath (uri : list ascii) :
  NUL ∉ RootPath →
  RootPath ≠ [] → byte_at RootPath 0 ≠ "/" →
  (∀ a b, realpath a = Some b → byte_at b 0 = "/") →
  ∀ p, determine_request_path BUFSIZ RootPath realpath uri ≠ Done (Some p).
Proof.
  intros Hwf Hne Hrel Habs p Hret.
  apply resolve_Some in Hret as (_ & Hreal & [rest ->]); [|done].
  apply Habs in Hreal. destruct RootPath as [|c root]; [done|].
  simpl in Hreal. rewrite byte_at_cons_0 in *. done.
Qed.

Lemma determine_request_path_relative_root_witness :
  determine_request_path 64 (bytes "www")
    (only (bytes "www/index.html") (bytes "/home/user/www/index.html")) (bytes "/index.html")
  ≠ Done (Some (bytes "/home/user/www/index.html")).
Proof.
  apply determine_request_path_relative_root.
  - by apply (bool_decide_unpack _).
  - done.
  - done.
  - intros a b. unfold only. case_bool_decide; [|done]. by intros [= <-].
Defined.

End RequestMore.

(** ** More on content types *)

Module MimeMore.
Import Mime MimeFacts.

(** X9: what [determine_mimetype] returns for a path: the default
    without a dot in the path or without a rules file; otherwise the
    leading field, trailing blanks cut, of the first buffer [fgets]
    fills that holds a token equal to the bytes behind the last dot, and
    the default when no buffer does. *)
Theorem determine_mimetype_value BUFSIZ WHITESPACE MimeTypesPath DefaultMimeType
    (fopen : list ascii → option (list ascii)) (path : list ascii) :
  2 ≤ BUFSIZ →
  (determine_mimetype BUFSIZ WHITESPACE MimeTypesPath DefaultMimeType fopen (Some path)).2
  = Done (match strrchr path "." with
          | None => Borrowed DefaultMimeType
          | Some temp =>
              match fopen MimeTypesPath with
              | None => Borrowed DefaultMimeType
              | Some fs =>
                  to_mimetype DefaultMimeType
                    (first_match WHITESPACE (drop (S temp) path) (file_lines BUFSIZ fs))
              end
          end).
Proof. intros Hroom. by apply determine_mimetype_spec. Qed.

Lemma determine_mimetype_value_witness :
  (example_mimetype ["text/plain txt"; "text/html  htm html"]%string "index.html").2
  = Done (Owned (bytes "text/html")).
Proof.
  assert (2 ≤ BUFSIZ_glibc) as Hroom by (vm_compute; lia).
  unfold example_mimetype.
  rewrite (determine_mimetype_value BUFSIZ_glibc WHITESPACE_example (bytes "/etc/mime.types")
             (bytes "text/plain") _ (bytes "index.html") Hroom).
  by vm_compute.
Defined.

(** X10: without a path, or with a path that holds no dot, the default
    is returned and no I/O is done: the rules file is not opened. *)
Theorem determine_mimetype_no_extension BUFSIZ WHITESPACE MimeTypesPath DefaultMimeType
    (fopen : list ascii → option (list ascii)) (path : option (list ascii)) :
  (∀ p, path = Some p → "."%char ∉ p) →
  determine_mimetype BUFSIZ WHITESPACE MimeTypesPath DefaultMimeType fopen path
  = ([], Done (Borrowed DefaultMimeType)).
Proof. apply determine_mimetype_no_dot. Qed.

Lemma determine_mimetype_no_extension_witness :
  example_mimetype ["text/html  htm html"]%string "/srv/www/README"
  = ([], Done (Borrowed (bytes "text/plain"))).
Proof.
  apply determine_mimetype_no_extension.
  intros p [= <-]. by apply (bool_decide_unpack _).
Defined.

Lemma scan_file_reads BUFSIZ WHITESPACE (ext : list ascii) (fuel : nat) :
  2 ≤ BUFSIZ →
  ∀ stream, length stream < fuel →
    (scan_file BUFSIZ WHITESPACE fuel ext stream).1
    = repeat IO_fgets (reads WHITESPACE ext (rule_lines BUFSIZ fuel stream)).
Proof.
  intros Hroom. induction fuel as [|fuel IH]; intros stream Hfuel; [lia|].
  simpl. destruct (fgets BUFSIZ stream) as [[buffer rest]|] eqn:Hget; [|done].
  apply fgets_Some in Hget as [Hlast Hless].
  rewrite (scan_line_spec WHITESPACE ext buffer Hlast). simpl.
  destruct (line_matches WHITESPACE ext buffer) eqn:Hm; [done|].
  specialize (IH rest). destruct (scan_file BUFSIZ WHITESPACE fuel ext rest) as [log r].
  simpl in *. rewrite IH by lia. done.
Qed.

(** X11: the I/O of a call on a path with a dot. The rules file is
    opened once, first; if that fails one message goes to [stderr] and
    nothing is read; otherwise [fgets] is called once for every buffer up
    to and including the first that matches, or once more than there are
    buffers when none matches. The file is never read behind a match. *)
Theorem determine_mimetype_io BUFSIZ WHITESPACE MimeTypesPath DefaultMimeType
    (fopen : list ascii → option (list ascii)) (path : list ascii) (temp : nat) :
  2 ≤ BUFSIZ →
  strrchr path "." = Some temp →
  (determine_mimetype BUFSIZ WHITESPACE MimeTypesPath DefaultMimeType fopen (Some path)).1
  = match fopen MimeTypesPath with
    | None => [IO_fopen MimeTypesPath; IO_stderr]
    | Some fs =>
        IO_fopen MimeTypesPath
        :: repeat IO_fgets (reads WHITESPACE (drop (S temp) path) (file_lines BUFSIZ fs))
    end.
Proof.
  intros Hroom Hdot. unfold determine_mimetype. rewrite Hdot.
  destruct (fopen MimeTypesPath) as [fs|]; [|done].
  pose proof (scan_file_reads BUFSIZ WHITESPACE (drop (S temp) path) (S (length fs)) Hroom fs)
    as Hlog.
  destruct (scan_file BUFSIZ WHITESPACE (S (length fs)) (drop (S temp) path) fs) as [log r].
  simpl in *. rewrite Hlog by lia. done.
Qed.

Lemma determine_mimetype_io_witness :
  (example_mimetype ["text/plain txt"; "text/html  htm html"; "image/png png"]%string
     "index.html").1
  = [IO_fopen (bytes "/etc/mime.types"); IO_fgets; IO_fgets].
Proof.
  assert (2 ≤ BUFSIZ_glibc) as Hroom by (vm_compute; lia).
  unfold example_mimetype.
  rewrite (determine_mimetype_io BUFSIZ_glibc WHITESPACE_example (bytes "/etc/mime.types")
             (bytes "text/plain") _ (bytes "index.html") 5 Hroom eq_refl).
  by vm_compute.
Defined.

Lemma leading_field_no_NUL WHITESPACE (line : list ascii) :
  NUL ∉ leading_field WHITESPACE line.
Proof.
  unfold leading_field. rewrite take_add_drop. intros [Hin|Hin]%elem_of_app.
  - pose proof (strspn_delims WHITESPACE line) as Hall.
    rewrite Forall_forall in Hall. by destruct (Hall _ Hin).
  - pose proof (strcspn_token_bytes WHITESPACE (drop (strspn WHITESPACE line) line)) as Hall.
    rewrite Forall_forall in Hall. by destruct (Hall _ Hin).
Qed.

(** X12: a value that is not the default comes from the rules file: it
    is a non-empty prefix, free of terminators, of a buffer [fgets]
    filled from the file, and that buffer holds a token the scan takes
    for the bytes behind the last dot of the path. *)
Theorem determine_mimetype_owned BUFSIZ WHITESPACE MimeTypesPath DefaultMimeType
    (fopen : list ascii → option (list ascii)) (path m : list ascii) :
  2 ≤ BUFSIZ →
  (determine_mimetype BUFSIZ WHITESPACE MimeTypesPath DefaultMimeType fopen (Some path)).2
  = Done (Owned m) →
  ∃ temp fs line,
    strrchr path "." = Some temp ∧ fopen MimeTypesPath = Some fs
    ∧ line ∈ file_lines BUFSIZ fs
    ∧ line_matches WHITESPACE (drop (S temp) path) line = true
    ∧ m `prefix_of` line ∧ m ≠ [] ∧ NUL ∉ m.
Proof.
  intros Hroom. rewrite determine_mimetype_spec by done.
  destruct (strrchr path ".") as [temp|]; [|done].
  destruct (fopen MimeTypesPath) as [fs|]; [|done].
  destruct (first_match WHITESPACE _ _) as [m'|] eqn:Hm; [|done].
  intros [= ->]. exists temp, fs.
  pose proof (first_match_nonempty _ _ _ _ Hm) as Hne.
  unfold first_match in Hm.
  destruct (find _ (file_lines BUFSIZ fs)) as [line|] eqn:Hfind; [|done].
  injection Hm as <-. apply find_some in Hfind as [Hin Hmatch].
  exists line. repeat split; try done.
  - by apply list_elem_of_In.
  - unfold cut_trailing, leading_field. etrans; apply prefix_take.
  - intros Hin'. apply (leading_field_no_NUL WHITESPACE line).
    unfold cut_trailing in Hin'. by eapply subseteq_take.
Qed.

Lemma determine_mimetype_owned_witness :
  ∃ temp fs line,
    strrchr (bytes "index.html") "." = Some temp
    ∧ rules_file ["text/html  htm html"]%string (bytes "/etc/mime.types") = Some fs
    ∧ line ∈ file_lines BUFSIZ_glibc fs
    ∧ line_matches WHITESPACE_example (drop (S temp) (bytes "index.html")) line = true
    ∧ bytes "text/html" `prefix_of` line ∧ bytes "text/html" ≠ [] ∧ NUL ∉ bytes "text/html".
Proof.
  assert (2 ≤ BUFSIZ_glibc) as Hroom by (vm_compute; lia).
  apply (determine_mimetype_owned BUFSIZ_glibc WHITESPACE_example (bytes "/etc/mime.types")
           (bytes "text/plain") (rules_file ["text/html  htm html"]%string)
           (bytes "index.html") (bytes "text/html") Hroom).
  by vm_compute.
Defined.

Lemma strrchr_app (dir ext : list ascii) (c : ascii) :
  c ∉ ext → strrchr (dir ++ c :: ext) c = Some (length dir).
Proof.
  intros Hext. induction dir as [|x dir IH]; simpl.
  - rewrite (proj2 (strrchr_None ext c) Hext). by rewrite Ascii.eqb_refl.
  - by rewrite IH.
Qed.

(** X13: only the bytes behind the last dot of the path count: two paths
    that end in the same extension get the same value by the same I/O,
    whatever comes before the dot. *)
Theorem determine_mimetype_extension_only BUFSIZ WHITESPACE MimeTypesPath DefaultMimeType
    (fopen : list ascii → option (list ascii)) (dir1 dir2 ext : list ascii) :
  "."%char ∉ ext →
  determine_mimetype BUFSIZ WHITESPACE MimeTypesPath DefaultMimeType fopen
    (Some (dir1 ++ "."%char :: ext))
  = determine_mimetype BUFSIZ WHITESPACE MimeTypesPath DefaultMimeType fopen
      (Some (dir2 ++ "."%char :: ext)).
Proof.
  intros Hext. unfold determine_mimetype. rewrite !strrchr_app by done.
  assert (∀ dir, drop (S (length dir)) (dir ++ "."%char :: ext) = ext) as Hdrop.
  { intros dir. rewrite (cons_middle _ dir ext), app_assoc.
    apply drop_app_length'. rewrite length_app. simpl. lia. }
  by rewrite !Hdrop.
Qed.

Lemma determine_mimetype_extension_only_witness :
  example_mimetype ["text/html  htm html"]%string "/srv/www/a.b/index.html"
  = example_mimetype ["text/html  htm html"]%string "x.html".
Proof.
  apply (determine_mimetype_extension_only BUFSIZ_glibc WHITESPACE_example
           (bytes "/etc/mime.types") (bytes "text/plain") _
           (bytes "/srv/www/a.b/index") (bytes "x") (bytes "html")).
  by apply (bool_decide_unpack _).
Defined.

(** X14: for a rules file whose lines are shorter than the buffer, the
    buffers are its lines, newline and terminator added: the value is the
    leading field of the first line of the text that holds a token equal
    to the extension. *)
Theorem determine_mimetype_short_lines BUFSIZ WHITESPACE MimeTypesPath DefaultMimeType
    (fopen : list ascii → option (list ascii)) (dir ext : list ascii)
    (lines : list (list ascii)) :
  2 ≤ BUFSIZ →
  Forall (λ l, (newline ∉ l) ∧ length l + 1 < BUFSIZ) lines →
  "."%char ∉ ext →
  fopen MimeTypesPath = Some (join_lines lines) →
  (determine_mimetype BUFSIZ WHITESPACE MimeTypesPath DefaultMimeType fopen
     (Some (dir ++ "."%char :: ext))).2
  = Done (to_mimetype DefaultMimeType
            (first_match WHITESPACE ext (map (λ l, l ++ [newline; NUL]) lines))).
Proof.
  intros Hroom Hshort Hext Hopen.
  rewrite determine_mimetype_spec, strrchr_app, Hopen by done.
  rewrite file_lines_join by done.
  rewrite (cons_middle _ dir ext), app_assoc, drop_app_length'; [done|].
  rewrite length_app. simpl. lia.
Qed.

Lemma determine_mimetype_short_lines_witness :
  (example_mimetype ["text/plain txt"; "text/html  htm html"]%string "index.html").2
  = Done (to_mimetype (bytes "text/plain")
            (first_match WHITESPACE_example (bytes "html")
               (map (λ l, l ++ [newline; NUL])
                    (map bytes ["text/plain txt"; "text/html  htm html"]%string)))).
Proof.
  apply (determine_mimetype_short_lines BUFSIZ_glibc WHITESPACE_example
           (bytes "/etc/mime.types") (bytes "text/plain") _ (bytes "index") (bytes "html")).
  - vm_compute; lia.
  - assert (20 < BUFSIZ_glibc) by (vm_compute; lia).
    repeat constructor; try (by apply (bool_decide_unpack _)); simpl; lia.
  - by apply (bool_decide_unpack _).
  - reflexivity.
Defined.

(** X15: on a rules file of plain lines (blank, or starting with the type
    name; no blank byte inside a token; no type name equal to the
    extension) the value is the first token of the first line that lists
    the extension among its later tokens, and the default without such a
    line. *)
Theorem determine_mimetype_on_plain_rules BUFSIZ WHITESPACE MimeTypesPath DefaultMimeType
    (fopen : list ascii → option (list ascii)) (path fs : list ascii) (temp : nat) :
  2 ≤ BUFSIZ →
  NUL ∉ path →
  strrchr path "." = Some temp →
  fopen MimeTypesPath = Some fs →
  Forall (plain_rule WHITESPACE (drop (S temp) path)) (file_lines BUFSIZ fs) →
  (determine_mimetype BUFSIZ WHITESPACE MimeTypesPath DefaultMimeType fopen (Some path)).2
  = Done (to_mimetype DefaultMimeType
            (spec_first_match WHITESPACE (drop (S temp) path) (file_lines BUFSIZ fs))).
Proof. intros. by apply determine_mimetype_plain_rules. Qed.

Lemma determine_mimetype_on_plain_rules_witness :
  (example_mimetype ["text/plain txt"; ""; "text/html  htm html"]%string "index.html").2
  = Done (Owned (bytes "text/html")).
Proof.
  assert (2 ≤ BUFSIZ_glibc) as Hroom by (vm_compute; lia).
  assert (file_lines BUFSIZ_glibc (text ["text/plain txt"; ""; "text/html  htm html"]%string)
          = map (λ l, l ++ [newline; NUL])
              (map bytes ["text/plain txt"; ""; "text/html  htm html"]%string)) as Hlines.
  { by vm_compute. }
  unfold example_mimetype.
  rewrite (determine_mimetype_on_plain_rules BUFSIZ_glibc WHITESPACE_example
             (bytes "/etc/mime.types") (bytes "text/plain") _ (bytes "index.html")
             (text ["text/plain txt"; ""; "text/html  htm html"]%string) 5 Hroom).
  - rewrite Hlines. by vm_compute.
  - by apply (bool_decide_unpack _).
  - reflexivity.
  - reflexivity.
  - rewrite Hlines. simpl. repeat apply Forall_cons_2; try apply Forall_nil_2.
    + split; [by right|]. split; by apply (bool_decide_unpack _).
    + split; [by left|]. split; by apply (bool_decide_unpack _).
    + split; [by right|]. split; by apply (bool_decide_unpack _).
Defined.

Lemma trim_back_spec (buf : list ascii) (n : nat) :
  trim_back buf n ≤ n
  ∧ (∀ i, trim_back buf n < i ≤ n → isspace (byte_at buf i) = true)
  ∧ (trim_back buf n = 0 ∨ isspace (byte_at buf (trim_back buf n)) = false).
Proof.
  induction n as [|n (Hle & Hblank & Hstop)]; simpl.
  - split; [done|]. split; [lia|by left].
  - destruct (isspace (byte_at buf (S n))) eqn:Hc.
    + split; [lia|]. split; [|done]. intros i Hi.
      destruct (decide (i = S n)) as [->|]; [done|]. apply Hblank. lia.
    + split; [done|]. split; [lia|by right].
Qed.

(** X16: what lines 67-72 hand back for the string at the start of the
    buffer: that string without the whitespace bytes at its end, but
    never without its first byte. *)
Theorem take_mimetype_trims (buf : list ascii) :
  c_string buf ≠ [] →
  ∃ m blanks,
    take_mimetype buf = Done m
    ∧ c_string buf = m ++ blanks
    ∧ Forall (λ c, isspace c = true) blanks
    ∧ m ≠ []
    ∧ (length m = 1 ∨ isspace (byte_at m (length m - 1)) = false).
Proof.
  intros Hne. rewrite take_mimetype_field by done.
  set (field := c_string buf) in *. unfold cut_trailing.
  destruct (trim_back_spec field (length field - 1)) as (Hle & Hblank & Hstop).
  set (b := trim_back field (length field - 1)) in *.
  assert (0 < length field) as Hlen by (destruct field; [done|simpl; lia]).
  exists (take (S b) field), (drop (S b) field).
  split; [done|]. split; [by rewrite take_drop|]. split; [|split].
  - apply Forall_lookup. intros i c Hc. rewrite lookup_drop in Hc.
    pose proof (lookup_lt_Some _ _ _ Hc) as Hlt.
    specialize (Hblank (S b + i)). unfold byte_at in Hblank. rewrite Hc in Hblank.
    apply Hblank. lia.
  - destruct field; [done|]. done.
  - rewrite length_take_le by lia. replace (S b - 1) with b by lia.
    destruct Hstop as [->|Hstop]; [by left|right].
    unfold byte_at in *. by rewrite lookup_take_lt by lia.
Qed.

Lemma take_mimetype_trims_witness :
  ∃ m blanks,
    take_mimetype (bytes "text/html  " ++ [NUL]) = Done m
    ∧ c_string (bytes "text/html  " ++ [NUL]) = m ++ blanks
    ∧ Forall (λ c, isspace c = true) blanks
    ∧ m ≠ []
    ∧ (length m = 1 ∨ isspace (byte_at m (length m - 1)) = false).
Proof. apply take_mimetype_trims. done. Defined.

Lemma cut_trailing_last (field : list ascii) (c : ascii) :
  last field = Some c → isspace c = false → cut_trailing field = field.
Proof.
  intros Hlast Hc. unfold cut_trailing. rewrite last_lookup in Hlast.
  replace (pred (length field)) with (length field - 1) in Hlast by lia.
  destruct (length field - 1) as [|n] eqn:Hn; simpl.
  - apply take_ge. lia.
  - unfold byte_at. rewrite Hlast. simpl. rewrite Hc. apply take_ge. lia.
Qed.

(** X17: a buffer that starts with delimiters keeps them in the value:
    when the line matches and its first token does not end in a
    whitespace byte, the body of the loop returns the delimiters before
    the first token followed by that token. *)
Theorem scan_line_keeps_leading_delimiters WHITESPACE (ext buffer t : list ascii)
    (ts : list (list ascii)) (c : ascii) :
  last buffer = Some NUL →
  tokens WHITESPACE buffer = t :: ts →
  line_matches WHITESPACE ext buffer = true →
  last t = Some c → isspace c = false →
  scan_line WHITESPACE ext buffer
  = Done (Some (take (strspn WHITESPACE buffer) buffer ++ t)).
Proof.
  intros Hlast Htoks Hmatch Ht Hc. rewrite scan_line_spec, Hmatch by done.
  apply leading_field_first_token in Htoks as [-> Hne].
  do 2 f_equal. apply (cut_trailing_last _ c); [|done].
  rewrite last_app, Ht. done.
Qed.

Lemma scan_line_keeps_leading_delimiters_witness :
  scan_line WHITESPACE_example (bytes "html")
    (bytes "  text/html  htm html" ++ [newline; NUL])
  = Done (Some (bytes "  text/html")).
Proof.
  apply (scan_line_keeps_leading_delimiters WHITESPACE_example (bytes "html")
           (bytes "  text/html  htm html" ++ [newline; NUL])
           (bytes "text/html") [bytes "htm"; bytes "html"] "l"%char); reflexivity.
Defined.

Lemma candidate_empty WHITESPACE (t : list ascii) :
  Forall (token_byte WHITESPACE) t →
  candidate [] t = true ↔ Forall (λ c, isspace c = true) t.
Proof.
  unfold candidate. rewrite streq_true. simpl.
  induction 1 as [|c t [Hnul _] _ IH]; simpl; [done|].
  destruct (isspace c) eqn:Hc.
  - rewrite IH. split; [by constructor|by inversion 1].
  - simpl. destruct (c =? NUL)%char eqn:E; [by apply eqb_NUL in E|].
    split; [done|]. inversion 1; congruence.
Qed.

(** X18: a path that ends in a dot has the empty extension, and a token
    is taken for it when all its bytes are [isspace] bytes (bytes that
    are whitespace without being delimiters, such as a carriage return
    between space, tab and newline). With a rules file that opens, the
    value is the default exactly when no buffer holds such a token. *)
Theorem determine_mimetype_empty_extension BUFSIZ WHITESPACE MimeTypesPath DefaultMimeType
    (fopen : list ascii → option (list ascii)) (dir fs : list ascii) :
  2 ≤ BUFSIZ →
  fopen MimeTypesPath = Some fs →
  (determine_mimetype BUFSIZ WHITESPACE MimeTypesPath DefaultMimeType fopen
     (Some (dir ++ ["."%char]))).2
  = Done (Borrowed DefaultMimeType)
  ↔ Forall (λ line, Forall (λ t, ¬ Forall (λ c, isspace c = true) t)
                      (tokens WHITESPACE line))
           (file_lines BUFSIZ fs).
Proof.
  intros Hroom Hopen. rewrite determine_mimetype_spec by done.
  rewrite strrchr_app by apply not_elem_of_nil. rewrite Hopen.
  rewrite drop_ge by (rewrite length_app; simpl; lia).
  assert (∀ line, line_matches WHITESPACE [] line = false
                  ↔ Forall (λ t, ¬ Forall (λ c, isspace c = true) t)
                      (tokens WHITESPACE line)) as Hline.
  { intros line. unfold line_matches.
    pose proof (tokens_bytes WHITESPACE line) as Hbytes.
    induction Hbytes as [|t ts [_ Htok] _ IH]; simpl.
    - split; [constructor|done].
    - assert (candidate [] t = false ↔ ¬ Forall (λ c, isspace c = true) t) as Hc.
      { rewrite <-(candidate_empty WHITESPACE t Htok).
        by destruct (candidate [] t); split. }
      by rewrite orb_false_iff, IH, Forall_cons, Hc. }
  unfold first_match. split.
  - intros Hret. apply Forall_forall. intros line Hin. apply Hline.
    destruct (find _ (file_lines BUFSIZ fs)) as [l|] eqn:Hfind; [done|].
    apply (List.find_none _ _ Hfind). by apply list_elem_of_In.
  - intros Hall. rewrite find_none; [done|].
    eapply Forall_impl; [exact Hall|]. intros line. apply Hline.
Qed.

Lemma determine_mimetype_empty_extension_witness :
  (example_mimetype ["text/html  htm html"]%string "README.").2
  = Done (Borrowed (bytes "text/plain")).
Proof.
  assert (2 ≤ BUFSIZ_glibc) as Hroom by (vm_compute; lia).
  apply (determine_mimetype_empty_extension BUFSIZ_glibc WHITESPACE_example
           (bytes "/etc/mime.types") (bytes "text/plain")
           (rules_file ["text/html  htm html"]%string) (bytes "README")
           (text ["text/html  htm html"]%string) Hroom eq_refl).
  by apply (bool_decide_unpack _).
Defined.

Example empty_extension_takes_carriage_return :
  (determine_mimetype BUFSIZ_glibc WHITESPACE_example (bytes "/etc/mime.types")
     (bytes "text/plain") (λ _, Some ["013"%char; newline]) (Some (bytes "README."))).2
  = Done (Owned ["013"%char]).
Proof. by vm_compute. Qed.

(** X19: which buffers the loop body takes: those with a token, the first
    of the line included, that equals the extension once its leading
    [isspace] bytes are dropped. *)
Theorem scan_line_match_criterion WHITESPACE (ext buffer : list ascii) :
  last buffer = Some NUL →
  NUL ∉ ext →
  (∃ m, scan_line WHITESPACE ext buffer = Done (Some m))
  ↔ ∃ t, t ∈ tokens WHITESPACE buffer ∧ skip_blanks t = ext.
Proof.
  intros Hlast Hext. rewrite scan_line_spec by done.
  pose proof (tokens_bytes WHITESPACE buffer) as Hbytes.
  assert (∀ t, t ∈ tokens WHITESPACE buffer → (candidate ext t = true ↔ skip_blanks t = ext))
    as Hcand.
  { intros t Hin. rewrite Forall_forall in Hbytes. destruct (Hbytes t Hin) as [_ Htok].
    unfold candidate. apply streq_exact; [|done].
    intros Hnul. assert (NUL ∈ t) as Hnul'.
    { clear -Hnul. induction t as [|c t IH]; [done|]. simpl in Hnul.
      destruct (isspace c); [right; by apply IH|done]. }
    rewrite Forall_forall in Htok. by destruct (Htok _ Hnul'). }
  unfold line_matches. split.
  - intros [m Hm]. destruct (existsb _ _) eqn:Hex; [|done].
    apply existsb_exists in Hex as (t & Hin & Hc). exists t.
    apply list_elem_of_In in Hin. split; [done|]. by apply Hcand.
  - intros (t & Hin & Ht). assert (existsb (candidate ext) (tokens WHITESPACE buffer) = true) as ->.
    { apply existsb_exists. exists t. split; [by apply list_elem_of_In|]. by apply Hcand. }
    by eexists.
Qed.

Lemma scan_line_match_criterion_witness :
  (∃ m, scan_line WHITESPACE_example (bytes "text/html")
          (bytes "text/html  htm html" ++ [newline; NUL]) = Done (Some m))
  ↔ ∃ t, t ∈ tokens WHITESPACE_example (bytes "text/html  htm html" ++ [newline; NUL])
         ∧ skip_blanks t = bytes "text/html".
Proof.
  apply scan_line_match_criterion; [reflexivity|by apply (bool_decide_unpack _)].
Defined.

Lemma read_line_length (n : nat) (stream : list ascii) :
  length (read_line n stream).1 ≤ n.
Proof.
  revert stream. induction n as [|n IH]; intros [|c stream]; simpl; try lia.
  destruct (c =? newline)%char; simpl; [lia|].
  specialize (IH stream). destruct (read_line n stream). simpl in *. lia.
Qed.

(** X20: the buffers of a scan hold the rules file, whole and in order:
    each buffer ends in its terminator and is no longer than [BUFSIZ],
    and the buffers without their terminators, one behind the other, are
    the bytes of the file. *)
Theorem rule_lines_cover_file BUFSIZ (fs : list ascii) :
  2 ≤ BUFSIZ →
  Forall (λ b, last b = Some NUL ∧ length b ≤ BUFSIZ) (file_lines BUFSIZ fs)
  ∧ concat (map (λ b, take (length b - 1) b) (file_lines BUFSIZ fs)) = fs.
Proof.
  intros Hroom. unfold file_lines.
  assert (∀ fuel stream, length stream < fuel →
            Forall (λ b, last b = Some NUL ∧ length b ≤ BUFSIZ) (rule_lines BUFSIZ fuel stream)
            ∧ concat (map (λ b, take (length b - 1) b) (rule_lines BUFSIZ fuel stream)) = stream)
    as Hgen; [|apply Hgen; lia].
  induction fuel as [|fuel IH]; intros stream Hfuel; [lia|]. simpl.
  destruct (fgets BUFSIZ stream) as [[buffer rest]|] eqn:Hget.
  - pose proof (fgets_Some _ _ _ _ Hget) as [Hlast Hless].
    destruct (IH rest ltac:(lia)) as [Hall Hcat].
    unfold fgets in Hget. destruct BUFSIZ as [|n]; [done|].
    destruct stream as [|c stream]; [done|].
    pose proof (read_line_app n (c :: stream)) as Happ.
    pose proof (read_line_length n (c :: stream)) as Hlen.
    destruct (read_line n (c :: stream)) as [line rest'] eqn:Hr. simpl in Happ, Hlen.
    injection Hget as <- <-. split.
    + constructor; [|done]. split; [done|]. rewrite length_app. simpl. lia.
    + simpl. rewrite Hcat, length_app. simpl.
      replace (length line + 1 - 1) with (length line) by lia.
      by rewrite take_app_length.
  - split; [constructor|]. simpl. unfold fgets in Hget.
    destruct BUFSIZ as [|n]; [lia|]. destruct stream as [|c stream]; [done|].
    by destruct (read_line n (c :: stream)).
Qed.

Lemma rule_lines_cover_file_witness :
  Forall (λ b, last b = Some NUL ∧ length b ≤ 8)
         (file_lines 8 (text ["text/html  htm html"]%string))
  ∧ concat (map (λ b, take (length b - 1) b)
              (file_lines 8 (text ["text/html  htm html"]%string)))
    = text ["text/html  htm html"]%string.
Proof. apply rule_lines_cover_file. lia. Defined.

End MimeMore.
